(** * Gate: the chat route (two upstream providers, synthesis, heuristic merge)

    Shallow embedding of [src/unnamed/part_000], the server route of the
    chat front-end: the two provider adapters [callGemini] and [callOpenAI],
    the local [heuristicMerge], [synthesizeWithOpenAI] and the [POST]
    handler; and of the chat component of [src/components/chat.jsx]: its
    state, [send], [clearChat] and the stored transcript (module [Chat]).

    Conventions of the embedding.
    - A JavaScript string is the list of its UTF-16 code units ([jstr]), so
      [length] is JavaScript's [.length].
    - A JavaScript value that reaches this code is JSON data (it comes out of
      [JSON.parse], of axios' decoded response body, or is a string built
      here) or [undefined]: [json] and [option json], [None] being
      [undefined].
    - A JSON number is kept as the literal it was read from.  What the
      runtime makes of the double the literal denotes (its truth value, its
      decimal text, its JSON text) is a function of the literal that the
      embedding does not compute: it is a field of the class [Runtime],
      which fixes it on the integers below [10^15] only, and the theorems
      hold for every runtime.
    - [toUpperCase], which follows the Unicode case mappings, the messages
      of the errors and the order in which two concurrent calls settle are
      fields of [Runtime] as well.
    - A thrown exception is a completion [Throw e]; a conversion to string
      throws on an object that has an own property [toString].
    - The network is an oracle from the history of requests and the request
      to an outcome; every request issued is recorded in a trace. *)

From Stdlib Require Import List NArith ZArith Bool Ascii String Lia.
From Stdlib Require DecimalN.
Import ListNotations.

Set Warnings "-register-all".
Local Open Scope N_scope.

(** ** Strings as UTF-16 code units *)

Definition jstr := list N.

Definition lit (s : string) : jstr := map N_of_ascii (list_ascii_of_string s).

Fixpoint jstr_eqb (a b : jstr) : bool :=
  match a, b with
  | [], [] => true
  | x :: a', y :: b' => N.eqb x y && jstr_eqb a' b'
  | _, _ => false
  end.

(** [s.startsWith(p)] *)
Fixpoint startsWith (s p : jstr) {struct p} : bool :=
  match p, s with
  | [], _ => true
  | x :: p', y :: s' => N.eqb x y && startsWith s' p'
  | _ :: _, [] => false
  end.

(** [s.indexOf(m)]: the first position at which [m] occurs, [None] for -1. *)
Fixpoint indexOf (s m : jstr) : option nat :=
  if startsWith s m then Some 0%nat
  else match s with
       | [] => None
       | _ :: s' => option_map S (indexOf s' m)
       end.

(** [s.includes(m)] *)
Definition includes (s m : jstr) : bool :=
  match indexOf s m with Some _ => true | None => false end.

(** [s.slice(i)] for a non-negative [i] *)
Definition slice (s : jstr) (i : nat) : jstr := skipn i s.

(** White space and line terminators, the code units [trim] removes. *)
Definition is_js_space (c : N) : bool :=
  ((9 <=? c) && (c <=? 13)) || (c =? 32) || (c =? 160) || (c =? 5760)
  || ((8192 <=? c) && (c <=? 8202)) || (c =? 8232) || (c =? 8233)
  || (c =? 8239) || (c =? 8287) || (c =? 12288) || (c =? 65279).

Fixpoint trimStart (s : jstr) : jstr :=
  match s with
  | c :: s' => if is_js_space c then trimStart s' else s
  | [] => []
  end.

Definition trimEnd (s : jstr) : jstr := rev (trimStart (rev s)).

(** [s.trim()] *)
Definition trim (s : jstr) : jstr := trimEnd (trimStart s).

(** ** JSON data *)

Inductive json : Type :=
| JNull
| JBool (b : bool)
| JNum (literal : jstr)
| JStr (s : jstr)
| JArr (elems : list json)
| JObj (props : list (jstr * json)).

(** A JavaScript value of this program: JSON data, or [undefined]. *)
Definition value := option json.

Definition undefined : value := None.

Definition is_digit (c : N) : bool := (48 <=? c) && (c <=? 57).

(** ** [JSON.parse] *)

Definition is_ws (c : N) : bool :=
  (c =? 9) || (c =? 10) || (c =? 13) || (c =? 32).

Fixpoint skip_ws (s : jstr) : jstr :=
  match s with
  | c :: s' => if is_ws c then skip_ws s' else s
  | [] => []
  end.

Definition hex_val (c : N) : option N :=
  if is_digit c then Some (c - 48)
  else if (97 <=? c) && (c <=? 102) then Some (c - 87)
  else if (65 <=? c) && (c <=? 70) then Some (c - 55)
  else None.

Definition hex4 (a b c d : N) : option N :=
  match hex_val a, hex_val b, hex_val c, hex_val d with
  | Some x, Some y, Some z, Some w => Some (((x * 16 + y) * 16 + z) * 16 + w)
  | _, _, _, _ => None
  end.

(** The character a one-letter escape stands for. *)
Definition unescape (e : N) : option N :=
  if e =? 34 then Some 34 else if e =? 92 then Some 92
  else if e =? 47 then Some 47 else if e =? 98 then Some 8
  else if e =? 102 then Some 12 else if e =? 110 then Some 10
  else if e =? 114 then Some 13 else if e =? 116 then Some 9
  else None.

Definition cons_chars (c : N) (r : option (jstr * jstr)) : option (jstr * jstr) :=
  match r with
  | Some (str, rest) => Some (c :: str, rest)
  | None => None
  end.

(** A string literal after its opening quotation mark: its characters and
    the text after the closing mark. *)
Fixpoint parse_chars (s : jstr) : option (jstr * jstr) :=
  match s with
  | [] => None
  | c :: s' =>
    if c =? 34 then Some ([], s')
    else if c =? 92 then
      match s' with
      | [] => None
      | e :: s'' =>
        if e =? 117 then
          match s'' with
          | h1 :: h2 :: h3 :: h4 :: s3 =>
            match hex4 h1 h2 h3 h4 with
            | Some u => cons_chars u (parse_chars s3)
            | None => None
            end
          | _ => None
          end
        else
          match unescape e with
          | Some u => cons_chars u (parse_chars s'')
          | None => None
          end
      end
    else if c <? 32 then None
    else cons_chars c (parse_chars s')
  end.

Fixpoint span_digits (s : jstr) : jstr * jstr :=
  match s with
  | c :: s' =>
    if is_digit c then let (d, r) := span_digits s' in (c :: d, r) else ([], s)
  | [] => ([], [])
  end.

(** [0], or a non-zero digit followed by digits. *)
Definition scan_int (s : jstr) : option (jstr * jstr) :=
  match s with
  | c :: s' =>
    if c =? 48 then Some ([48], s')
    else if is_digit c then let (d, r) := span_digits s' in Some (c :: d, r)
    else None
  | [] => None
  end.

(** An optional fraction: a point and at least one digit. *)
Definition scan_frac (s : jstr) : option (jstr * jstr) :=
  match s with
  | c :: s' =>
    if c =? 46 then
      match span_digits s' with
      | ([], _) => None
      | (d, r) => Some (c :: d, r)
      end
    else Some ([], s)
  | [] => Some ([], [])
  end.

Definition scan_sign (s : jstr) : jstr * jstr :=
  match s with
  | c :: s' => if (c =? 43) || (c =? 45) then ([c], s') else ([], s)
  | [] => ([], [])
  end.

(** An optional exponent: [e] or [E], an optional sign, at least one digit. *)
Definition scan_exp (s : jstr) : option (jstr * jstr) :=
  match s with
  | c :: s' =>
    if (c =? 101) || (c =? 69) then
      let (sg, s2) := scan_sign s' in
      match span_digits s2 with
      | ([], _) => None
      | (d, r) => Some (c :: sg ++ d, r)
      end
    else Some ([], s)
  | [] => Some ([], [])
  end.

Definition scan_minus (s : jstr) : jstr * jstr :=
  match s with
  | c :: s' => if c =? 45 then ([c], s') else ([], s)
  | [] => ([], [])
  end.

(** A number literal and the text after it. *)
Definition scan_number (s : jstr) : option (jstr * jstr) :=
  let (sg, s1) := scan_minus s in
  match scan_int s1 with
  | None => None
  | Some (i, s2) =>
    match scan_frac s2 with
    | None => None
    | Some (f, s3) =>
      match scan_exp s3 with
      | None => None
      | Some (e, s4) => Some (sg ++ i ++ f ++ e, s4)
      end
    end
  end.

(** *** Objects: own properties in enumeration order

    An object is the list of its own properties in the order the runtime
    enumerates them: the array-index keys in ascending order, then the
    other keys in the order of their creation. *)

Definition digits_val (d : jstr) : N :=
  fold_left (fun a c => a * 10 + (c - 48)) d 0.

(** The canonical decimal names of the integers below [2^32 - 1]. *)
Definition array_index (k : jstr) : option N :=
  match k with
  | [] => None
  | c :: k' =>
    if forallb is_digit k
       && (negb (c =? 48) || match k' with [] => true | _ => false end)
    then if digits_val k <? 4294967295 then Some (digits_val k) else None
    else None
  end.

Definition obj_has (k : jstr) (ps : list (jstr * json)) : bool :=
  existsb (fun kv => jstr_eqb (fst kv) k) ps.

Fixpoint obj_get (k : jstr) (ps : list (jstr * json)) : value :=
  match ps with
  | [] => None
  | (k', v) :: ps' => if jstr_eqb k' k then Some v else obj_get k ps'
  end.

Fixpoint obj_replace (k : jstr) (v : json) (ps : list (jstr * json)) :=
  match ps with
  | [] => []
  | (k', v') :: ps' =>
    if jstr_eqb k' k then (k', v) :: ps' else (k', v') :: obj_replace k v ps'
  end.

Fixpoint obj_insert_index (n : N) (k : jstr) (v : json) (ps : list (jstr * json)) :=
  match ps with
  | [] => [(k, v)]
  | (k', v') :: ps' =>
    match array_index k' with
    | Some n' =>
      if n' <=? n then (k', v') :: obj_insert_index n k v ps' else (k, v) :: ps
    | None => (k, v) :: ps
    end
  end.

(** CreateDataProperty: an existing key keeps its place and takes the new
    value, a new key is created. *)
Definition obj_set (k : jstr) (v : json) (ps : list (jstr * json)) :=
  if obj_has k ps then obj_replace k v ps
  else match array_index k with
       | Some n => obj_insert_index n k v ps
       | None => ps ++ [(k, v)]
       end.

Definition build_object (members : list (jstr * json)) : list (jstr * json) :=
  fold_left (fun acc kv => obj_set (fst kv) (snd kv) acc) members [].

(** *** Values *)

(** One member [ "key" : value ] of an object, given the parser of values. *)
Definition parse_member (pv : jstr -> option (json * jstr)) (s : jstr)
  : option ((jstr * json) * jstr) :=
  match skip_ws s with
  | c :: s1 =>
    if c =? 34 then
      match parse_chars s1 with
      | Some (k, s2) =>
        match skip_ws s2 with
        | c2 :: s3 =>
          if c2 =? 58 then
            match pv s3 with
            | Some (v, r) => Some ((k, v), r)
            | None => None
            end
          else None
        | [] => None
        end
      | None => None
      end
    else None
  | [] => None
  end.

(** The recursive descent.  Every recursive call is on a strictly shorter
    text, so fuel above the length of the text is never exhausted
    (lemma [parse_value_fuel]). *)
Fixpoint parse_value (fuel : nat) (s : jstr) {struct fuel} : option (json * jstr) :=
  match fuel with
  | O => None
  | S f =>
    match skip_ws s with
    | [] => None
    | c :: s' =>
      if c =? 123 then
        match skip_ws s' with
        | c2 :: s2 =>
          if c2 =? 125 then Some (JObj [], s2)
          else
            match parse_member (parse_value f) s' with
            | Some (kv, r) =>
              match parse_members f r with
              | Some (kvs, r') => Some (JObj (build_object (kv :: kvs)), r')
              | None => None
              end
            | None => None
            end
        | [] => None
        end
      else if c =? 91 then
        match skip_ws s' with
        | c2 :: s2 =>
          if c2 =? 93 then Some (JArr [], s2)
          else
            match parse_value f s' with
            | Some (v, r) =>
              match parse_elems f r with
              | Some (vs, r') => Some (JArr (v :: vs), r')
              | None => None
              end
            | None => None
            end
        | [] => None
        end
      else if c =? 34 then
        match parse_chars s' with
        | Some (str, r) => Some (JStr str, r)
        | None => None
        end
      else if startsWith (c :: s') (lit "true") then Some (JBool true, skipn 4 (c :: s'))
      else if startsWith (c :: s') (lit "false") then Some (JBool false, skipn 5 (c :: s'))
      else if startsWith (c :: s') (lit "null") then Some (JNull, skipn 4 (c :: s'))
      else
        match scan_number (c :: s') with
        | Some (l, r) => Some (JNum l, r)
        | None => None
        end
    end
  end
with parse_elems (fuel : nat) (s : jstr) {struct fuel} : option (list json * jstr) :=
  match fuel with
  | O => None
  | S f =>
    match skip_ws s with
    | c :: s1 =>
      if c =? 93 then Some ([], s1)
      else if c =? 44 then
        match parse_value f s1 with
        | Some (v, r) =>
          match parse_elems f r with
          | Some (vs, r') => Some (v :: vs, r')
          | None => None
          end
        | None => None
        end
      else None
    | [] => None
    end
  end
with parse_members (fuel : nat) (s : jstr) {struct fuel}
  : option (list (jstr * json) * jstr) :=
  match fuel with
  | O => None
  | S f =>
    match skip_ws s with
    | c :: s1 =>
      if c =? 125 then Some ([], s1)
      else if c =? 44 then
        match parse_member (parse_value f) s1 with
        | Some (kv, r) =>
          match parse_members f r with
          | Some (kvs, r') => Some (kv :: kvs, r')
          | None => None
          end
        | None => None
        end
      else None
    | [] => None
    end
  end.

(** [JSON.parse(text)] on a string; [None] when it throws a SyntaxError. *)
Definition JSON_parse (text : jstr) : option json :=
  match parse_value (S (List.length text)) text with
  | Some (v, r) => match skip_ws r with [] => Some v | _ :: _ => None end
  | None => None
  end.

(** *** Number literals *)

(** A number of the JSON grammar. *)
Definition valid_number (l : jstr) : bool :=
  match scan_number l with
  | Some (l', []) => jstr_eqb l' l
  | _ => false
  end.

(** The decimal digits of an integer below [10^15], without a leading
    zero: such a literal denotes its integer exactly. *)
Definition safe_integer (l : jstr) : bool :=
  forallb is_digit l && (List.length l <=? 15)%nat
  && match l with
     | [] => false
     | [_] => true
     | c :: _ => negb (c =? 48)
     end.

(** ** Completions: a result, or a thrown exception *)

(** Where a TypeError is thrown: destructuring [null], calling a method the
    receiver does not have, converting an object to a primitive. *)
Inductive site : Type := Destructuring | MethodCall | Conversion.

(** The errors thrown in this program: the SyntaxError of [JSON.parse] on a
    text, and the TypeError of an operation on a value. *)
Inductive exn : Type :=
| SyntaxError (text : jstr)
| TypeError (origin : site) (culprit : value).

Inductive completion (A : Type) : Type :=
| Normal (a : A)
| Throw (e : exn).

Arguments Normal {A} a.
Arguments Throw {A} e.

Definition bind {A B : Type} (c : completion A) (k : A -> completion B)
  : completion B :=
  match c with
  | Normal a => k a
  | Throw e => Throw e
  end.

Notation "x <- c ;; k" := (bind c (fun x => k))
  (at level 61, c at next level, right associativity).

(** ** The environment, the network and the log *)

(** [process.env]: a variable is absent or a string. *)
Record Env : Type := mkEnv {
  GEMINI_API_KEY : option jstr;
  OPENAI_API_KEY : option jstr
}.

(** ToBoolean of an environment variable. *)
Definition env_set (k : option jstr) : bool :=
  match k with
  | Some (_ :: _) => true
  | _ => false
  end.

(** The two kinds of request [axios.post] is called with: Gemini's
    [generateContent] with the key as query parameter and the prompt, and
    OpenAI's chat completions with the bearer key and the content of the
    single user message (model [gpt-4o-mini], [max_tokens] 1200). *)
Inductive Request : Type :=
| GeminiGenerate (key : option jstr) (prompt : value)
| OpenAIChat (key : option jstr) (content : value).

(** How the awaited [axios.post] completes: with a response whose decoded
    body is [data], or by throwing [err], of which the code reads
    [err.response.data] and [err.message]. *)
Inductive Outcome : Type :=
| Fulfilled (data : json)
| Rejected (response_data : value) (message : jstr).

(** The upstream services: what a request gets, given the requests sent
    before it. *)
Definition Upstream := list Request -> Request -> Outcome.

Record World : Type := mkWorld {
  sent : list Request;
  logged : list (jstr * value)
}.

Definition new_world : World := mkWorld [] [].

Definition axios_post (up : Upstream) (r : Request) (w : World) : Outcome * World :=
  (up (sent w) r, mkWorld (sent w ++ [r]) (logged w)).

Definition console_error (label : jstr) (detail : value) (w : World) : World :=
  mkWorld (sent w) (logged w ++ [(label, detail)]).

(** ** The runtime

    What the code takes from the JavaScript runtime and the embedding does
    not compute.  A number is the double its literal denotes: the three
    functions on literals stand for ToBoolean, for Number::toString and for
    [JSON.stringify] of that double ([null] when it is not finite).  Of
    these functions the class records what the language fixes on the
    simplest inputs: ASCII text, and integers that a double holds
    exactly. *)

Definition upper_ascii_unit (c : N) : N :=
  if (97 <=? c) && (c <=? 122) then c - 32 else c.

(** The upper case of an ASCII text: the letters [a] to [z] are mapped. *)
Definition upper_ascii (s : jstr) : jstr := map upper_ascii_unit s.

Definition is_ascii (s : jstr) : bool := forallb (fun c => c <? 128) s.

(** The digits of a number literal before its exponent. *)
Fixpoint mantissa (l : jstr) : jstr :=
  match l with
  | [] => []
  | c :: l' => if (c =? 101) || (c =? 69) then [] else c :: mantissa l'
  end.

(** Some digit of the mantissa is not zero. *)
Definition literal_nonzero (l : jstr) : bool :=
  existsb (fun c => (49 <=? c) && (c <=? 57)) (mantissa l).

Class Runtime : Type := {
  (** [s.toUpperCase()] *)
  toUpperCase : jstr -> jstr;
  (** ToBoolean of the number read from a literal *)
  number_truthy : jstr -> bool;
  (** ToString of the number read from a literal *)
  number_text : jstr -> jstr;
  (** [JSON.stringify] of the number read from a literal *)
  number_json : jstr -> jstr;
  (** [v > 0] on JSON data, where the comparison returns *)
  greater_than_zero : json -> bool;
  (** [err.message] *)
  error_message : exn -> jstr;
  (** Of two calls in flight after the requests of the history, whether the
      one to Gemini settles first. *)
  gemini_settles_first : list Request -> bool;
  (** On ASCII text the case mapping is that of the letters [a] to [z]. *)
  toUpperCase_ascii :
    forall s, is_ascii s = true -> toUpperCase s = upper_ascii s;
  (** A number is written as a number of the JSON grammar, or as [null]. *)
  number_json_grammar :
    forall l, valid_number l = true ->
              number_json l = lit "null" \/ valid_number (number_json l) = true;
  (** An integer below [10^15] is printed digit for digit, and is falsy
      when it is zero. *)
  safe_integer_exact :
    forall l, safe_integer l = true ->
              number_json l = l /\ number_text l = l
              /\ number_truthy l = literal_nonzero l
}.

(** *** One runtime

    The runtime of the examples.  It is exact on ASCII text and on the
    integers below [10^15], as the class requires, and the examples use no
    other input; nothing is stated of it elsewhere, where it maps no letter
    and prints a literal back. *)

Definition literal_positive (v : json) : bool :=
  match v with
  | JNum l => literal_nonzero l && negb (startsWith l [45])
  | JBool b => b
  | _ => false
  end.

Definition message_of (e : exn) : jstr :=
  match e with
  | SyntaxError _ => lit "Unexpected token in JSON"
  | TypeError Destructuring _ => lit "Cannot destructure property 'prompt'"
  | TypeError MethodCall _ => lit "txt.toUpperCase is not a function"
  | TypeError Conversion _ => lit "Cannot convert object to primitive value"
  end.

Definition js : Runtime := {|
  toUpperCase := upper_ascii;
  number_truthy := literal_nonzero;
  number_text := fun l => l;
  number_json := fun l => l;
  greater_than_zero := literal_positive;
  error_message := message_of;
  gemini_settles_first := fun _ => true;
  toUpperCase_ascii := fun s _ => eq_refl;
  number_json_grammar := fun l H => or_intror H;
  safe_integer_exact := fun l _ => conj eq_refl (conj eq_refl eq_refl)
|}.

Section Model.

Context {rt : Runtime}.

(** ** Truth values *)

Definition json_truthy (j : json) : bool :=
  match j with
  | JNull => false
  | JBool b => b
  | JNum l => number_truthy l
  | JStr s => match s with [] => false | _ => true end
  | JArr _ | JObj _ => true
  end.

(** ToBoolean *)
Definition truthy (v : value) : bool :=
  match v with None => false | Some j => json_truthy j end.

(** [a || b] *)
Definition js_or (a b : value) : value := if truthy a then a else b.

(** [a && b] *)
Definition js_and (a b : value) : value := if truthy a then b else a.

(** ** [JSON.stringify] *)

Definition hex_digit (n : N) : N := if n <? 10 then 48 + n else 87 + n.

(** The escape [\uXXXX] with lower-case hexadecimal digits. *)
Definition u_escape (c : N) : jstr :=
  [92; 117; hex_digit ((c / 4096) mod 16); hex_digit ((c / 256) mod 16);
   hex_digit ((c / 16) mod 16); hex_digit (c mod 16)].

Definition is_high_surrogate (c : N) : bool := (55296 <=? c) && (c <=? 56319).
Definition is_low_surrogate (c : N) : bool := (56320 <=? c) && (c <=? 57343).

(** QuoteJSONString without its two quotation marks: the short escapes, the
    other control characters and the lone surrogates as [\uXXXX]. *)
Fixpoint quote_body (s : jstr) : jstr :=
  match s with
  | [] => []
  | c :: s' =>
    if c =? 8 then [92; 98] ++ quote_body s'
    else if c =? 9 then [92; 116] ++ quote_body s'
    else if c =? 10 then [92; 110] ++ quote_body s'
    else if c =? 12 then [92; 102] ++ quote_body s'
    else if c =? 13 then [92; 114] ++ quote_body s'
    else if c =? 34 then [92; 34] ++ quote_body s'
    else if c =? 92 then [92; 92] ++ quote_body s'
    else if c <? 32 then u_escape c ++ quote_body s'
    else if is_high_surrogate c then
      match s' with
      | d :: s'' =>
        if is_low_surrogate d then c :: d :: quote_body s''
        else u_escape c ++ quote_body s'
      | [] => u_escape c
      end
    else if is_low_surrogate c then u_escape c ++ quote_body s'
    else c :: quote_body s'
  end.

Definition quote (s : jstr) : jstr := 34 :: quote_body s ++ [34].

Fixpoint join (sep : jstr) (l : list jstr) : jstr :=
  match l with
  | [] => []
  | [x] => x
  | x :: l' => x ++ sep ++ join sep l'
  end.

(** The line break and indentation written before an item at nesting depth
    [d] when the gap is two spaces; nothing when there is no gap. *)
Definition newline (gap : bool) (d : nat) : jstr :=
  if gap then 10 :: repeat 32 (2 * d) else [].

Definition colon (gap : bool) : jstr := if gap then [58; 32] else [58].

(** SerializeJSONProperty on JSON data, at nesting depth [d]; [gap] tells
    whether the third argument of [JSON.stringify] is [2] or absent. *)
Fixpoint serialize (gap : bool) (d : nat) (j : json) {struct j} : jstr :=
  match j with
  | JNull => lit "null"
  | JBool true => lit "true"
  | JBool false => lit "false"
  | JNum l => number_json l
  | JStr s => quote s
  | JArr [] => lit "[]"
  | JArr l =>
    [91] ++ newline gap (S d)
    ++ join (44 :: newline gap (S d)) (map (serialize gap (S d)) l)
    ++ newline gap d ++ [93]
  | JObj [] => lit "{}"
  | JObj ps =>
    [123] ++ newline gap (S d)
    ++ join (44 :: newline gap (S d))
         (map (fun kv => quote (fst kv) ++ colon gap ++ serialize gap (S d) (snd kv)) ps)
    ++ newline gap d ++ [125]
  end.

(** [JSON.stringify(j)] *)
Definition JSON_stringify (j : json) : jstr := serialize false 0 j.

(** [JSON.stringify(j, null, 2)] *)
Definition JSON_stringify2 (j : json) : jstr := serialize true 0 j.

(** ** Conversion to string *)

(** ToString on JSON data: what [JSON.parse] and a template literal do to an
    argument that is not a string.  An array is joined with commas, [null]
    elements as the empty string.  An object is converted by its [toString]:
    the inherited one gives [[object Object]]; an own property [toString],
    which is data and cannot be called, leaves no way to a primitive, and the
    conversion throws. *)
Fixpoint ToString (j : json) : completion jstr :=
  match j with
  | JNull => Normal (lit "null")
  | JBool true => Normal (lit "true")
  | JBool false => Normal (lit "false")
  | JNum l => Normal (number_text l)
  | JStr s => Normal s
  | JArr l =>
    ss <- (fix elements (l : list json) : completion (list jstr) :=
             match l with
             | [] => Normal []
             | e :: l' =>
               s <- match e with JNull => Normal [] | _ => ToString e end ;;
               ss <- elements l' ;;
               Normal (s :: ss)
             end) l ;;
    Normal (join [44] ss)
  | JObj ps =>
    if obj_has (lit "toString") ps then Throw (TypeError Conversion (Some j))
    else Normal (lit "[object Object]")
  end.

(** ToString on a value. *)
Definition ToString_value (v : value) : completion jstr :=
  match v with
  | None => Normal (lit "undefined")
  | Some j => ToString j
  end.

(** [JSON.parse(v)] on any value: the argument is converted to a string;
    [None] when the call throws, in the conversion or in the parser. *)
Definition JSON_parse_value (v : value) : option json :=
  match ToString_value v with
  | Normal text => JSON_parse text
  | Throw _ => None
  end.

(** ** The heuristic merger *)

Definition nl : jstr := [10].

Definition markers : list jstr :=
  [lit "SCRIPT:"; lit "VIDEO:"; lit "ASSETS:"; lit "TRANSCRIPT:"].

Record Parts : Type := mkParts { script : jstr; video : jstr; general : jstr }.

Definition no_parts : Parts := mkParts [] [] [].

(** The body of the loop of [extractByMarker], for one marker [m] on the
    string [txt]. *)
Definition extract_marker (txt : jstr) (parts : Parts) (m : jstr) : Parts :=
  if includes (toUpperCase txt) m then
    match indexOf (toUpperCase txt) m with
    | Some idx =>
      let segment := trim (slice txt (idx + List.length m)) in
      if startsWith m (lit "SCRIPT") then
        mkParts (script parts ++ nl ++ segment) (video parts) (general parts)
      else if startsWith m (lit "VIDEO") then
        mkParts (script parts) (video parts ++ nl ++ segment) (general parts)
      else
        mkParts (script parts) (video parts) (general parts ++ nl ++ segment)
    | None => parts
    end
  else parts.

(** [extractByMarker(txt)], the closure that updates [parts].  A receiver
    that is not a string has no [toUpperCase]: the first call throws. *)
Definition extractByMarker (txt : value) (parts : Parts) : completion Parts :=
  match txt with
  | Some (JStr s) => Normal (fold_left (extract_marker s) markers parts)
  | _ => Throw (TypeError MethodCall txt)
  end.

Definition empty_string : value := Some (JStr []).

(** [.length] of a value that is a string (what [x || ''] is once
    [extractByMarker] has returned on it). *)
Definition str_length (v : value) : nat :=
  match v with
  | Some (JStr s) => List.length s
  | _ => 0%nat
  end.

Definition is_empty (s : jstr) : bool :=
  match s with [] => true | _ :: _ => false end.

Definition no_reply : value := Some (JStr (lit "(no reply)")).

(** The annotated text of the longest-wins step. *)
Definition longest_wins (geminiText openaiText : value) : completion jstr :=
  let prefer :=
    if (str_length (js_or geminiText empty_string)
        <=? str_length (js_or openaiText empty_string))%nat
    then openaiText else geminiText in
  g <- ToString_value (js_or geminiText no_reply) ;;
  o <- ToString_value (js_or openaiText no_reply) ;;
  p <- ToString_value prefer ;;
  Normal (lit "--Merged result (heuristic)--" ++ nl ++ nl
          ++ lit "[From Gemini]" ++ nl ++ g ++ nl ++ nl
          ++ lit "[From OpenAI]" ++ nl ++ o ++ nl ++ nl
          ++ lit "[Preferred]" ++ nl ++ p ++ nl).

(** The labelled sections, in the order Script, Video, Other. *)
Definition sections (parts : Parts) : jstr :=
  (lit "--Merged Result (heuristic)--" ++ nl)
  ++ (if is_empty (script parts) then []
      else nl ++ lit "== Script ==" ++ nl ++ script parts ++ nl)
  ++ (if is_empty (video parts) then []
      else nl ++ lit "== Video Instructions / Assets ==" ++ nl ++ video parts ++ nl)
  ++ (if is_empty (general parts) then []
      else nl ++ lit "== Other ==" ++ nl ++ general parts ++ nl).

(** The document of the structured step. *)
Definition merged_doc (gjson ojson : json) : json :=
  JObj [(lit "merged", JObj [(lit "gemini", gjson); (lit "openai", ojson)])].

(** The steps after the structured one. *)
Definition marker_step (geminiText openaiText : value) : completion jstr :=
  p1 <- extractByMarker (js_or geminiText empty_string) no_parts ;;
  parts <- extractByMarker (js_or openaiText empty_string) p1 ;;
  if is_empty (script parts) && is_empty (video parts) && is_empty (general parts)
  then longest_wins geminiText openaiText
  else Normal (sections parts).

(** [heuristicMerge(geminiText, openaiText)]: whatever is thrown under its
    [try] is caught, and the steps after it follow. *)
Definition heuristicMerge (geminiText openaiText : value) : completion jstr :=
  match JSON_parse_value geminiText with
  | Some gjson =>
    match JSON_parse_value openaiText with
    | Some ojson => Normal (JSON_stringify2 (merged_doc gjson ojson))
    | None => marker_step geminiText openaiText
    end
  | None => marker_step geminiText openaiText
  end.

(** A reply that is a string. *)
Definition str (s : string) : value := Some (JStr (lit s)).

(** ** Property access *)

(** [v?.name] for a name that no built-in prototype defines. *)
Definition get (v : value) (name : string) : value :=
  match v with
  | Some (JObj ps) => obj_get (lit name) ps
  | _ => None
  end.

(** [v?.[0]] *)
Definition get0 (v : value) : value :=
  match v with
  | Some (JObj ps) => obj_get (lit "0") ps
  | Some (JArr (x :: _)) => Some x
  | Some (JStr (c :: _)) => Some (JStr [c])
  | _ => None
  end.

(** ** The provider adapters and the synthesizer *)

Record ProviderResult : Type := mkResult {
  ok : bool;
  text : value;
  raw : value;
  error : value
}.

Definition failure (detail : value) : ProviderResult :=
  mkResult false None None detail.

(** [err?.response?.data || err.message] *)
Definition error_detail (response_data : value) (message : jstr) : value :=
  js_or response_data (Some (JStr message)).

(** [callGemini(prompt)] *)
Definition callGemini (env : Env) (up : Upstream) (prompt : value) (w : World)
  : ProviderResult * World :=
  let (res, w1) := axios_post up (GeminiGenerate (GEMINI_API_KEY env) prompt) w in
  match res with
  | Fulfilled data =>
    let raw := Some data in
    let candidate :=
      get (get0 (get (get (get0 (get raw "candidates")) "content") "parts")) "text" in
    if truthy candidate then (mkResult true candidate raw None, w1)
    else (mkResult true (Some (JStr (JSON_stringify data))) raw None, w1)
  | Rejected rd msg =>
    (failure (error_detail rd msg),
     console_error (lit "Gemini error") (error_detail rd msg) w1)
  end.

(** [res.data?.choices?.[0]?.message?.content] *)
Definition first_choice_content (data : json) : value :=
  get (get (get0 (get (Some data) "choices")) "message") "content".

(** [callOpenAI(prompt)] *)
Definition callOpenAI (env : Env) (up : Upstream) (prompt : value) (w : World)
  : ProviderResult * World :=
  if negb (env_set (OPENAI_API_KEY env))
  then (failure (Some (JStr (lit "OPENAI_API_KEY missing"))), w)
  else
    let (res, w1) := axios_post up (OpenAIChat (OPENAI_API_KEY env) prompt) w in
    match res with
    | Fulfilled data =>
      (mkResult true (first_choice_content data) (Some data) None, w1)
    | Rejected rd msg =>
      (failure (error_detail rd msg),
       console_error (lit "OpenAI error") (error_detail rd msg) w1)
    end.

(** The meta-prompt of the synthesizer around the three converted texts. *)
Definition synth_text (userPrompt geminiText openaiText : jstr) : jstr :=
  nl ++ lit "You are a synthesizer. The user asked:" ++ nl ++ [34; 34; 34]
  ++ userPrompt ++ [34; 34; 34] ++ nl ++ nl
  ++ lit "Gemini replied:" ++ nl ++ [34; 34; 34]
  ++ geminiText ++ [34; 34; 34] ++ nl ++ nl
  ++ lit "OpenAI replied:" ++ nl ++ [34; 34; 34]
  ++ openaiText ++ [34; 34; 34] ++ nl ++ nl
  ++ lit "Return a single, best possible combined response. " ++ nl
  ++ lit "- If one response contains a script and the other contains video instructions, produce JSON with fields: {"
  ++ [34] ++ lit "script" ++ [34] ++ lit ": " ++ [34] ++ lit "..." ++ [34]
  ++ lit ", " ++ [34] ++ lit "video_instructions" ++ [34] ++ lit ": "
  ++ [34] ++ lit "..." ++ [34] ++ lit ", " ++ [34] ++ lit "notes" ++ [34]
  ++ lit ": " ++ [34] ++ lit "..." ++ [34] ++ lit "}." ++ nl
  ++ lit "- If both are text answers, produce a merged concise answer and present any concrete artifacts (code blocks, scripts, or step lists)."
  ++ nl
  ++ lit "- Keep output machine-friendly: if needed return JSON. Otherwise return well-structured Arabic text."
  ++ nl.

(** The template literal [synthPrompt]: its three substitutions are
    converted to strings in the order in which they are written. *)
Definition synthPrompt (geminiText openaiText userPrompt : value)
  : completion jstr :=
  u <- ToString_value userPrompt ;;
  g <- ToString_value geminiText ;;
  o <- ToString_value openaiText ;;
  Normal (synth_text u g o).

(** [synthesizeWithOpenAI(geminiText, openaiText, userPrompt)]; its result
    has no [raw] field.  The template literal is evaluated after the test of
    the key and before the [try]: what it throws leaves the function. *)
Definition synthesizeWithOpenAI (env : Env) (up : Upstream)
    (geminiText openaiText userPrompt : value) (w : World)
  : completion ProviderResult * World :=
  if negb (env_set (OPENAI_API_KEY env))
  then (Normal (failure (Some (JStr (lit "OPENAI_API_KEY missing")))), w)
  else
    match synthPrompt geminiText openaiText userPrompt with
    | Throw e => (Throw e, w)
    | Normal content =>
      let (res, w1) :=
        axios_post up (OpenAIChat (OPENAI_API_KEY env) (Some (JStr content))) w in
      match res with
      | Fulfilled data =>
        (Normal (mkResult true (first_choice_content data) None None), w1)
      | Rejected rd msg =>
        (Normal (failure (error_detail rd msg)),
         console_error (lit "Synthesis OpenAI error") (error_detail rd msg) w1)
      end
    end.

(** ** The request handler *)

Record Response : Type := mkResponse { status : nat; reply : value }.

(** [NextResponse.json({ reply })] *)
Definition json_reply (reply : value) : Response := mkResponse 200 reply.

(** [v === 'literal'] *)
Definition is_str (v : value) (s : string) : bool :=
  match v with
  | Some (JStr x) => jstr_eqb x (lit s)
  | _ => false
  end.

(** [t.length > 0] for a truthy [t]: a string and an array have their
    length, a number and a boolean have no [length], an object has the own
    property of that name or none. *)
Definition length_positive (t : json) : bool :=
  match t with
  | JStr s => negb (is_empty s)
  | JArr l => match l with [] => false | _ :: _ => true end
  | JObj ps =>
    match obj_get (lit "length") ps with
    | Some v => greater_than_zero v
    | None => false
    end
  | _ => false
  end.

(** The four variables of the loop over the results. *)
Record Slots : Type := mkSlots {
  gemT : value; openT : value; gemOk : bool; openOk : bool
}.

Definition no_slots : Slots := mkSlots empty_string empty_string false false.

(** The body of the loop [for (const r of results)]. *)
Definition assign (sl : Slots) (r : ProviderResult) : Slots :=
  if truthy (js_and (raw r) (get (raw r) "candidates")) then
    mkSlots (js_or (text r) empty_string) (openT sl) (ok r) (openOk sl)
  else if truthy (js_and (raw r) (get (raw r) "choices")) then
    mkSlots (gemT sl) (js_or (text r) empty_string) (gemOk sl) (ok r)
  else
    match text r with
    | Some t =>
      if json_truthy t && length_positive t && negb (truthy (openT sl)) then
        if negb (truthy (gemT sl))
        then mkSlots (text r) (openT sl) (ok r) (openOk sl)
        else mkSlots (gemT sl) (text r) (gemOk sl) (ok r)
      else sl
    | None => sl
    end.

(** 'لا رد من Gemini' *)
Definition no_reply_gemini : jstr :=
  [1604; 1575; 32; 1585; 1583; 32; 1605; 1606; 32] ++ lit "Gemini".

(** 'لا رد من OpenAI' *)
Definition no_reply_openai : jstr :=
  [1604; 1575; 32; 1585; 1583; 32; 1605; 1606; 32] ++ lit "OpenAI".

(** 'لا رد' *)
Definition no_reply_any : jstr := [1604; 1575; 32; 1585; 1583].

(** '⚠️ حدث خطأ في المعالجة' *)
Definition error_reply : jstr :=
  [9888; 65039; 32; 1581; 1583; 1579; 32; 1582; 1591; 1571; 32; 1601; 1610;
   32; 1575; 1604; 1605; 1593; 1575; 1604; 1580; 1577].

(** [const { prompt, mode = 'fusion', model = 'both' } = body]: [null]
    cannot be destructured; a default replaces [undefined] only. *)
Definition with_default (v : value) (d : string) : value :=
  match v with
  | None => str d
  | Some _ => v
  end.

(** The lines written to the log between two states of the world. *)
Definition new_lines (before after : World) : list (jstr * value) :=
  skipn (List.length (logged before)) (logged after).

(** The world after two concurrent calls, the first of which took [w] to
    [w1] and the second [w1] to [w2]: each logs when it settles. *)
Definition settled (w w1 w2 : World) : World :=
  mkWorld (sent w2)
    (if gemini_settles_first (sent w2) then logged w2
     else logged w ++ new_lines w1 w2 ++ new_lines w w1).

(** The calls of the dispatch and [Promise.all]: the requests are issued in
    the order of the calls, the results are in that order, and two calls in
    flight log in the order in which they settle. *)
Definition dispatch (env : Env) (up : Upstream) (prompt model : value) (w : World)
  : list ProviderResult * World :=
  let wantGemini := is_str model "both" || is_str model "gemini" in
  let alsoOpenAI :=
    is_str model "openai"
    || (is_str model "both" && env_set (OPENAI_API_KEY env)) in
  let (calls1, w1) :=
    if wantGemini
    then let (r, w') := callGemini env up prompt w in ([r], w')
    else ([], w) in
  let (calls2, w2) :=
    if alsoOpenAI
    then let (r, w') := callOpenAI env up prompt w1 in ([r], w')
    else ([], w1) in
  (calls1 ++ calls2, if wantGemini && alsoOpenAI then settled w w1 w2 else w2).

(** The fusion branch. *)
Definition fusion (env : Env) (up : Upstream) (prompt : value) (sl : Slots)
    (w : World) : completion Response * World :=
  if env_set (OPENAI_API_KEY env) && truthy (js_or (gemT sl) (openT sl)) then
    match synthesizeWithOpenAI env up (gemT sl) (openT sl) prompt w with
    | (Throw e, w1) => (Throw e, w1)
    | (Normal synth, w1) =>
      if ok synth then (Normal (json_reply (text synth)), w1)
      else (fallback <- heuristicMerge (gemT sl) (openT sl) ;;
            Normal (json_reply (Some (JStr fallback))), w1)
    end
  else
    (merged <- heuristicMerge (gemT sl) (openT sl) ;;
     Normal (json_reply (Some (JStr merged))), w).

(** The single branch. *)
Definition single (model : value) (sl : Slots) : Response :=
  if is_str model "gemini"
  then json_reply (js_or (gemT sl) (Some (JStr no_reply_gemini)))
  else if is_str model "openai"
  then json_reply (js_or (openT sl) (Some (JStr no_reply_openai)))
  else json_reply (js_or (js_or (openT sl) (gemT sl)) (Some (JStr no_reply_any))).

(** The block under [try] in [POST], on the text of the request body. *)
Definition POST_try (env : Env) (up : Upstream) (body : jstr) (w : World)
  : completion Response * World :=
  match JSON_parse body with
  | None => (Throw (SyntaxError body), w)
  | Some JNull => (Throw (TypeError Destructuring (Some JNull)), w)
  | Some b =>
    let prompt := get (Some b) "prompt" in
    let mode := with_default (get (Some b) "mode") "fusion" in
    let model := with_default (get (Some b) "model") "both" in
    let (results, w1) := dispatch env up prompt model w in
    let sl := fold_left assign results no_slots in
    if is_str mode "single" then (Normal (single model sl), w1)
    else fusion env up prompt sl w1
  end.

(** [POST(req)]: the block and its [catch]. *)
Definition POST (env : Env) (up : Upstream) (body : jstr) (w : World)
  : Response * World :=
  match POST_try env up body w with
  | (Normal r, w1) => (r, w1)
  | (Throw e, w1) =>
    (mkResponse 500 (Some (JStr error_reply)),
     console_error (lit "API route error") (Some (JStr (error_message e))) w1)
  end.

(** ** Predicates of the statements *)

(** No recognised marker occurs in the upper-cased [txt]. *)
Definition no_marker (txt : jstr) : Prop :=
  forall m, In m markers -> includes (toUpperCase txt) m = false.

(** The heading-and-excerpt text of the longest-wins step on two strings,
    written out. *)
Definition annotated (g o : jstr) : jstr :=
  lit "--Merged result (heuristic)--" ++ nl ++ nl
  ++ lit "[From Gemini]" ++ nl ++ (if is_empty g then lit "(no reply)" else g)
  ++ nl ++ nl
  ++ lit "[From OpenAI]" ++ nl ++ (if is_empty o then lit "(no reply)" else o)
  ++ nl ++ nl
  ++ lit "[Preferred]" ++ nl
  ++ (if (List.length g <=? List.length o)%nat then o else g) ++ nl.

(** ** Texts and scenarios of the examples *)

(** [JSON.stringify({ merged: { gemini: 1, openai: 2 } }, null, 2)] *)
Definition doc_1_2 : jstr :=
  lit "{" ++ nl ++ lit "  " ++ [34] ++ lit "merged" ++ [34] ++ lit ": {"
  ++ nl ++ lit "    " ++ [34] ++ lit "gemini" ++ [34] ++ lit ": 1," ++ nl
  ++ lit "    " ++ [34] ++ lit "openai" ++ [34] ++ lit ": 2" ++ nl
  ++ lit "  }" ++ nl ++ lit "}".

(** [JSON.stringify({ merged: { gemini: null, openai: true } }, null, 2)] *)
Definition doc_null_true : jstr :=
  lit "{" ++ nl ++ lit "  " ++ [34] ++ lit "merged" ++ [34] ++ lit ": {"
  ++ nl ++ lit "    " ++ [34] ++ lit "gemini" ++ [34] ++ lit ": null,"
  ++ nl ++ lit "    " ++ [34] ++ lit "openai" ++ [34] ++ lit ": true"
  ++ nl ++ lit "  }" ++ nl ++ lit "}".



(** What the merger returns on [TRANSCRIPT: hello] and an empty reply. *)
Definition transcript_out : jstr :=
  lit "--Merged Result (heuristic)--" ++ nl ++ nl ++ lit "== Script =="
  ++ nl ++ nl ++ lit "hello" ++ nl ++ nl ++ lit "== Other ==" ++ nl ++ nl
  ++ lit "hello" ++ nl.

(** A request body asking for OpenAI alone in single mode. *)
Definition body_single_openai : jstr :=
  lit "{" ++ [34] ++ lit "prompt" ++ [34] ++ lit ":" ++ [34] ++ lit "hi"
  ++ [34] ++ lit "," ++ [34] ++ lit "mode" ++ [34] ++ lit ":" ++ [34]
  ++ lit "single" ++ [34] ++ lit "," ++ [34] ++ lit "model" ++ [34]
  ++ lit ":" ++ [34] ++ lit "openai" ++ [34] ++ lit "}".

(** A request body with a prompt only: fusion mode, both providers. *)
Definition body_hi : jstr :=
  lit "{" ++ [34] ++ lit "prompt" ++ [34] ++ lit ":" ++ [34] ++ lit "hi"
  ++ [34] ++ lit "}".

Definition fifty : jstr := lit "The quick brown fox jumps over the lazy dog twice.".

(** No key at all, and both keys. *)
Definition env_none : Env := mkEnv None None.
Definition env_keys : Env := mkEnv (Some (lit "g-key")) (Some (lit "o-key")).

(** A response of Gemini whose first candidate has the text [t]. *)
Definition gemini_payload (t : json) : json :=
  JObj [(lit "candidates",
         JArr [JObj [(lit "content",
                      JObj [(lit "parts", JArr [JObj [(lit "text", t)]])])]])].

(** Every call fails on the network. *)
Definition up_down : Upstream :=
  fun _ _ => Rejected None (lit "Network Error").

(** Gemini answers [A]; OpenAI answers 200 with the empty object, which has
    no [choices]. *)
Definition up_no_choices : Upstream :=
  fun _ r =>
    match r with
    | GeminiGenerate _ _ => Fulfilled (gemini_payload (JStr (lit "A")))
    | OpenAIChat _ _ => Fulfilled (JObj [])
    end.

(** Gemini answers with a candidate whose [text] is an object. *)
Definition up_object_text : Upstream :=
  fun _ r =>
    match r with
    | GeminiGenerate _ _ => Fulfilled (gemini_payload (JObj [(lit "x", JNull)]))
    | OpenAIChat _ _ => Rejected None (lit "Network Error")
    end.

(** Gemini answers [A]; every call to OpenAI fails on the network. *)
Definition up_openai_down : Upstream :=
  fun _ r =>
    match r with
    | GeminiGenerate _ _ => Fulfilled (gemini_payload (JStr (lit "A")))
    | OpenAIChat _ _ => Rejected None (lit "Network Error")
    end.

(** A response of OpenAI whose first choice has the content [t]. *)
Definition openai_payload (t : json) : json :=
  JObj [(lit "choices",
         JArr [JObj [(lit "message", JObj [(lit "content", t)])]])].

(** Gemini answers [A] and OpenAI answers [B]. *)
Definition up_answers : Upstream :=
  fun _ r =>
    match r with
    | GeminiGenerate _ _ => Fulfilled (gemini_payload (JStr (lit "A")))
    | OpenAIChat _ _ => Fulfilled (openai_payload (JStr (lit "B")))
    end.

(** A request body whose prompt is an object with a property [toString]. *)
Definition body_toString : jstr :=
  lit "{" ++ [34] ++ lit "prompt" ++ [34] ++ lit ":{" ++ [34]
  ++ lit "toString" ++ [34] ++ lit ":1}}".

(** The mode and the model of a request, and the texts collected for it:
    the slots after the loop over the results of the dispatch. *)
Definition mode_of (b : json) : value := with_default (get (Some b) "mode") "fusion".
Definition model_of (b : json) : value := with_default (get (Some b) "model") "both".

Definition collected (env : Env) (up : Upstream) (b : json) (w : World)
  : Slots * World :=
  let (results, w1) := dispatch env up (get (Some b) "prompt") (model_of b) w in
  (fold_left assign results no_slots, w1).

(** ** Well-formed JSON data

    The data [JSON.parse] produces: number literals of the JSON grammar, and
    objects whose keys are distinct and in enumeration order. *)

(** The first code unit of [s], if any, satisfies [p]. *)
Definition head_ok (p : N -> bool) (s : jstr) : bool :=
  match s with
  | [] => true
  | c :: _ => p c
  end.

(** A code unit that cannot continue a number literal. *)
Definition stop_unit (c : N) : bool :=
  negb (is_digit c || (c =? 46) || (c =? 101) || (c =? 69)).

(** The rank of keys in the enumeration order: an array index comes before
    a larger index and before every other key. *)
Definition key_le (k1 k2 : jstr) : bool :=
  match array_index k1, array_index k2 with
  | Some a, Some b => a <=? b
  | Some _, None => true
  | None, Some _ => false
  | None, None => true
  end.

Fixpoint ordered (ks : list jstr) : bool :=
  match ks with
  | k1 :: ((k2 :: _) as ks') => key_le k1 k2 && ordered ks'
  | _ => true
  end.

Fixpoint distinct (ks : list jstr) : bool :=
  match ks with
  | [] => true
  | k :: ks' => negb (existsb (fun k' => jstr_eqb k' k) ks') && distinct ks'
  end.

Definition normal_keys (ps : list (jstr * json)) : bool :=
  ordered (map fst ps) && distinct (map fst ps).

Fixpoint wf (j : json) : bool :=
  match j with
  | JNum l => valid_number l
  | JArr l => forallb wf l
  | JObj ps => normal_keys ps && forallb (fun kv => wf (snd kv)) ps
  | _ => true
  end.

(** The number of nodes of a value: fuel enough to read it back. *)
Fixpoint size (j : json) : nat :=
  match j with
  | JArr l => S (list_sum (map size l))
  | JObj ps => S (list_sum (map (fun kv => size (snd kv)) ps))
  | _ => 1
  end.

(** *** What is read back from a serialised value

    [JSON.stringify] writes a number as the runtime prints it, [null] when
    it is not finite; [JSON.parse] then reads the literal that was printed. *)

Definition prints_null (l : jstr) : bool := jstr_eqb (number_json l) (lit "null").

(** The text printed for a number is [null] or a number of the JSON
    grammar. *)
Definition printable_number (l : jstr) : bool :=
  prints_null l || valid_number (number_json l).

Fixpoint printable (j : json) : bool :=
  match j with
  | JNum l => printable_number l
  | JArr l => forallb printable l
  | JObj ps => forallb (fun kv => printable (snd kv)) ps
  | _ => true
  end.

(** The value [JSON.parse] reads from the text [JSON.stringify] writes for
    [j]. *)
Fixpoint reread (j : json) : json :=
  match j with
  | JNum l => if prints_null l then JNull else JNum (number_json l)
  | JArr l => JArr (map reread l)
  | JObj ps => JObj (map (fun kv => (fst kv, reread (snd kv))) ps)
  | _ => j
  end.

(** Every number is printed as its literal, digit for digit. *)
Fixpoint prints_itself (j : json) : bool :=
  match j with
  | JNum l => jstr_eqb (number_json l) l
  | JArr l => forallb prints_itself l
  | JObj ps => forallb (fun kv => prints_itself (snd kv)) ps
  | _ => true
  end.

Definition not_digit (c : N) : bool := negb (is_digit c).

(** A code unit that cannot continue the fraction of a number literal. *)
Definition frac_stop (c : N) : bool := negb (is_digit c || (c =? 46)).

Definition is_point (c : N) : bool := c =? 46.

Definition is_e (c : N) : bool := (c =? 101) || (c =? 69).

(** ** The text after the first item of an array or an object *)

(** A code unit on which a serialised value can start. *)
Definition value_start (c : N) : bool :=
  is_digit c || (c =? 45) || (c =? 34) || (c =? 91) || (c =? 123)
  || (c =? 116) || (c =? 102) || (c =? 110).

(** One property of an object as [serialize] writes it. *)
Definition item (gap : bool) (d : nat) (kv : jstr * json) : jstr :=
  quote (fst kv) ++ colon gap ++ serialize gap (S d) (snd kv).

(** The further elements of an array, each after its comma, and the closing
    bracket. *)
Definition tail_elems (gap : bool) (d : nat) (l : list json) : jstr :=
  List.concat (map (fun e => (44 :: newline gap (S d)) ++ serialize gap (S d) e) l)
  ++ newline gap d ++ [93].

(** The further properties of an object and the closing brace. *)
Definition tail_members (gap : bool) (d : nat) (ps : list (jstr * json)) : jstr :=
  List.concat (map (fun kv => (44 :: newline gap (S d)) ++ item gap d kv) ps)
  ++ newline gap d ++ [125].

(** ** Predicates of the further properties *)

(** [typeof v === 'string'] *)
Definition is_string (v : value) : bool :=
  match v with
  | Some (JStr _) => true
  | _ => false
  end.

(** A value that is truthy and not a string: the receivers on which
    [toUpperCase] is missing. *)
Definition truthy_non_string (v : value) : bool :=
  truthy v && negb (is_string v).

(** The marker [m] occurs in the upper-cased [txt]. *)
Definition occurs (txt m : jstr) : bool := includes (toUpperCase txt) m.

(** What a reply contributes to the bucket of the marker [m]: a line break
    and the reply sliced from the index at which [m] first ends in the
    upper-cased reply, trimmed; or nothing when [m] does not occur there. *)
Definition segment (txt m : jstr) : jstr :=
  match indexOf (toUpperCase txt) m with
  | Some idx => nl ++ trim (slice txt (idx + List.length m))
  | None => []
  end.

(** The three buckets after both replies have been scanned. *)
Definition buckets (g o : jstr) : Parts :=
  mkParts
    (segment g (lit "SCRIPT:") ++ segment o (lit "SCRIPT:"))
    (segment g (lit "VIDEO:") ++ segment o (lit "VIDEO:"))
    (segment g (lit "ASSETS:") ++ segment g (lit "TRANSCRIPT:")
     ++ segment o (lit "ASSETS:") ++ segment o (lit "TRANSCRIPT:")).

(** [b === null] *)
Definition json_is_null (b : json) : bool :=
  match b with
  | JNull => true
  | _ => false
  end.

(** Some marker occurs in one of the two replies. *)
Definition any_marker (g o : jstr) : bool :=
  existsb (fun m => occurs g m || occurs o m) markers.

(** A request body asking for Gemini alone, in fusion mode. *)
Definition body_gemini : jstr :=
  lit "{" ++ [34] ++ lit "prompt" ++ [34] ++ lit ":" ++ [34] ++ lit "hi"
  ++ [34] ++ lit "," ++ [34] ++ lit "model" ++ [34] ++ lit ":" ++ [34]
  ++ lit "gemini" ++ [34] ++ lit "}".

(** A request body naming a model the handler does not know. *)
Definition body_unknown_model : jstr :=
  lit "{" ++ [34] ++ lit "prompt" ++ [34] ++ lit ":" ++ [34] ++ lit "hi"
  ++ [34] ++ lit "," ++ [34] ++ lit "model" ++ [34] ++ lit ":" ++ [34]
  ++ lit "claude" ++ [34] ++ lit "}".

(** Every call to an upstream service is rejected. *)
Definition all_rejected (up : Upstream) : Prop :=
  forall h r, exists rd msg, up h r = Rejected rd msg.

(** The fixed text of single mode for a model. *)
Definition placeholder_for (model : value) : jstr :=
  if is_str model "gemini" then no_reply_gemini
  else if is_str model "openai" then no_reply_openai
  else no_reply_any.

(** The response to a request for which no text was collected. *)
Definition degraded (b : json) : Response :=
  if is_str (mode_of b) "single"
  then json_reply (Some (JStr (placeholder_for (model_of b))))
  else json_reply (Some (JStr (annotated [] []))).

(** A body that is JSON data without fields: a number, a string, a boolean
    or an array. *)
Definition no_fields (b : json) : bool :=
  match b with
  | JNull | JObj _ => false
  | _ => true
  end.

(** [raw?.candidates?.[0]?.content?.parts?.[0]?.text] *)
Definition gemini_candidate (data : json) : value :=
  get (get0 (get (get (get0 (get (Some data) "candidates")) "content") "parts"))
    "text".

(** A payload in which Gemini reports a blocked prompt and no candidate. *)
Definition blocked_payload : json :=
  JObj [(lit "promptFeedback", JObj [(lit "blockReason", JStr (lit "SAFETY"))])].

Definition up_blocked : Upstream := fun _ _ => Fulfilled blocked_payload.

(** A request body asking for Gemini alone, in single mode. *)
Definition body_single_gemini : jstr :=
  lit "{" ++ [34] ++ lit "prompt" ++ [34] ++ lit ":" ++ [34] ++ lit "hi"
  ++ [34] ++ lit "," ++ [34] ++ lit "mode" ++ [34] ++ lit ":" ++ [34]
  ++ lit "single" ++ [34] ++ lit "," ++ [34] ++ lit "model" ++ [34]
  ++ lit ":" ++ [34] ++ lit "gemini" ++ [34] ++ lit "}".

(** The two tests of the loop of [POST] on the payload of a result:
    [r.raw && r.raw?.candidates] and [r.raw && r.raw?.choices]. *)
Definition has_candidates (r : ProviderResult) : bool :=
  truthy (js_and (raw r) (get (raw r) "candidates")).

Definition has_choices (r : ProviderResult) : bool :=
  truthy (js_and (raw r) (get (raw r) "choices")).

(** The request of the synthesizer, if it sends one: none when the
    meta-prompt throws. *)
Definition synth_requests (env : Env) (g o prompt : value) : list Request :=
  match synthPrompt g o prompt with
  | Normal content => [OpenAIChat (OPENAI_API_KEY env) (Some (JStr content))]
  | Throw _ => []
  end.

End Model.

(** ** The chat component ([src/components/chat.jsx])

    The state of [Chat] is the five values of its [useState] hooks.  One
    call of [send] is followed to its end: the part before the [await], the
    outcome of [axios.post], the part after.  [Date.now()] is read once for
    the user's message and once for the answer. *)

Module Chat.

(** 'لم يصل رد.' *)
Definition no_reply_arrived : jstr :=
  [1604; 1605; 32; 1610; 1589; 1604; 32; 1585; 1583; 46].

(** 'حدث خطأ أثناء طلب النموذج.' *)
Definition request_failed : jstr :=
  [1581; 1583; 1579; 32; 1582; 1591; 1571; 32; 1571; 1579; 1606; 1575; 1569;
   32; 1591; 1604; 1576; 32; 1575; 1604; 1606; 1605; 1608; 1584; 1580; 46].

Record State : Type := mkState {
  messages : list json;
  input : jstr;
  loading : bool;
  mode : jstr;
  model : jstr
}.

Fixpoint uint_units (u : Decimal.uint) : jstr :=
  match u with
  | Decimal.Nil => []
  | Decimal.D0 u => 48 :: uint_units u
  | Decimal.D1 u => 49 :: uint_units u
  | Decimal.D2 u => 50 :: uint_units u
  | Decimal.D3 u => 51 :: uint_units u
  | Decimal.D4 u => 52 :: uint_units u
  | Decimal.D5 u => 53 :: uint_units u
  | Decimal.D6 u => 54 :: uint_units u
  | Decimal.D7 u => 55 :: uint_units u
  | Decimal.D8 u => 56 :: uint_units u
  | Decimal.D9 u => 57 :: uint_units u
  end.

(** The decimal digits of a non-negative integer: what a time stamp in
    milliseconds prints as. *)
Definition Number_toString (n : N) : jstr := uint_units (N.to_uint n).

(** [{ id, role, text }] *)
Definition message (id : N) (role : string) (text : json) : json :=
  JObj [(lit "id", JNum (Number_toString id));
        (lit "role", JStr (lit role));
        (lit "text", text)].

(** A message as [send] makes it when the text is a string: an object
    [{ id, role, text }] with a string for its role and for its text, and
    for its [id] an integer below [10^15], as a time stamp is.  These are
    messages the component renders. *)
Definition is_message {rt : Runtime} (m : json) : bool :=
  match m with
  | JObj [(k1, JNum l); (k2, JStr _); (k3, JStr _)] =>
    jstr_eqb k1 (lit "id") && jstr_eqb k2 (lit "role")
    && jstr_eqb k3 (lit "text") && safe_integer l
  | _ => false
  end.

(** How the awaited [axios.post] ends for [send]: with [res.data], or by
    throwing (the error is only logged). *)
Inductive PostOutcome : Type :=
| Resolved (data : json)
| Failed.

(** [{ prompt: input, mode, model }] *)
Definition payload (st : State) : json :=
  JObj [(lit "prompt", JStr (input st));
        (lit "mode", JStr (mode st));
        (lit "model", JStr (model st))].

(** [res.data?.reply || 'لم يصل رد.'] *)
Definition reply_text {rt : Runtime} (data : json) : json :=
  match get (Some data) "reply" with
  | Some t => if json_truthy t then t else JStr no_reply_arrived
  | None => JStr no_reply_arrived
  end.

(** [send] up to its [await]; [None] when it returns at once. *)
Definition send_start (now : N) (st : State) : option State :=
  if is_empty (trim (input st)) then None
  else Some (mkState (messages st ++ [message now "user" (JStr (input st))])
               [] true (mode st) (model st)).

(** [send] after its [await]. *)
Definition send_finish {rt : Runtime} (now : N) (out : PostOutcome)
    (st : State) : State :=
  let answer :=
    match out with
    | Resolved data => message (now + 1) "assistant" (reply_text data)
    | Failed => message (now + 2) "assistant" (JStr request_failed)
    end in
  mkState (messages st ++ [answer]) (input st) false (mode st) (model st).

(** One call of [send]: the new state and the payload posted, if any. *)
Definition send {rt : Runtime} (now0 now1 : N) (post : json -> PostOutcome)
    (st : State)
  : State * option json :=
  match send_start now0 st with
  | None => (st, None)
  | Some st1 => (send_finish now1 (post (payload st)) st1, Some (payload st))
  end.

(** What the effect on [messages] stores under [aihub_fusion_msgs], once
    the component has rendered them. *)
Definition persist {rt : Runtime} (st : State) : jstr := JSON_stringify (JArr (messages st)).

(** The initial value of [messages]: the stored text parsed, [[]] when
    nothing is stored or the text does not parse. *)
Definition initial_messages (stored : option jstr) : json :=
  let text := match stored with
              | Some (c :: s) => c :: s
              | _ => lit "[]"
              end in
  match JSON_parse text with
  | Some v => v
  | None => JArr []
  end.

(** [clearChat] *)
Definition clearChat (st : State) : State :=
  mkState [] (input st) (loading st) (mode st) (model st).

(** The body of [NextResponse.json({ reply }, { status })]: a property that
    is [undefined] is left out. *)
Definition wire {rt : Runtime} (r : Response) : jstr :=
  JSON_stringify (JObj match reply r with
                       | Some v => [(lit "reply", v)]
                       | None => []
                       end).

(** What [axios.post] makes of a response: it resolves on a status from 200
    to 299, with the body parsed when it is JSON, and throws otherwise. *)
Definition axios_outcome {rt : Runtime} (r : Response) : PostOutcome :=
  if ((200 <=? status r) && (status r <? 300))%nat
  then Resolved match JSON_parse (wire r) with
                | Some d => d
                | None => JStr (wire r)
                end
  else Failed.

(** The post of [send] when the route of [POST] answers it. *)
Definition api_chat {rt : Runtime} (env : Env) (up : Upstream) (w : World)
    (p : json)
  : PostOutcome :=
  axios_outcome (fst (POST env up (JSON_stringify p) w)).

End Chat.

(** * Properties

    The theorems of this part hold for every runtime. *)

Section Properties.

Context {rt : Runtime}.

(** ** Strings *)

Lemma jstr_eqb_eq (a b : jstr) : jstr_eqb a b = true <-> a = b.
Proof.
  revert b; induction a as [|x a IH]; intros [|y b]; simpl; split;
    try congruence; try reflexivity.
  - intros H. apply andb_prop in H as [Hx Hab].
    apply N.eqb_eq in Hx. apply IH in Hab. congruence.
  - intros H. injection H as -> ->. rewrite N.eqb_refl. simpl. now apply IH.
Qed.

Lemma is_str_true (v : value) (s : string) :
  is_str v s = true -> v = str s.
Proof.
  destruct v as [[| | |x| |]|]; simpl; try discriminate.
  intros H. apply jstr_eqb_eq in H. now subst.
Qed.

Lemma js_or_string (s : jstr) :
  js_or (Some (JStr s)) empty_string = Some (JStr s).
Proof. destruct s; reflexivity. Qed.

(** ** The marker step on strings *)

Lemma extract_marker_absent (txt : jstr) (parts : Parts) (m : jstr) :
  includes (toUpperCase txt) m = false -> extract_marker txt parts m = parts.
Proof. intros H. unfold extract_marker. now rewrite H. Qed.

Lemma fold_extract_absent (txt : jstr) (ms : list jstr) (parts : Parts) :
  (forall m, In m ms -> includes (toUpperCase txt) m = false) ->
  fold_left (extract_marker txt) ms parts = parts.
Proof.
  revert parts; induction ms as [|m ms IH]; intros parts H; simpl.
  - reflexivity.
  - rewrite extract_marker_absent by (apply H; now left).
    apply IH. intros m' Hm'. apply H. now right.
Qed.

(** On two strings the longest-wins step returns the annotated text. *)
Lemma longest_wins_strings (g o : jstr) :
  longest_wins (Some (JStr g)) (Some (JStr o)) = Normal (annotated g o).
Proof.
  unfold longest_wins, annotated. rewrite !js_or_string. simpl str_length.
  destruct (List.length g <=? List.length o)%nat; destruct g, o; reflexivity.
Qed.

(** On two strings the steps after the structured one never throw. *)
Lemma marker_step_strings (g o : jstr) :
  marker_step (Some (JStr g)) (Some (JStr o)) =
  let parts := fold_left (extract_marker o) markers
                 (fold_left (extract_marker g) markers no_parts) in
  if is_empty (script parts) && is_empty (video parts) && is_empty (general parts)
  then Normal (annotated g o)
  else Normal (sections parts).
Proof.
  unfold marker_step. rewrite !js_or_string, longest_wins_strings. reflexivity.
Qed.

Lemma heuristicMerge_strings_normal (g o : jstr) :
  exists m, heuristicMerge (Some (JStr g)) (Some (JStr o)) = Normal m.
Proof.
  unfold heuristicMerge.
  destruct (JSON_parse_value (Some (JStr g)));
    [destruct (JSON_parse_value (Some (JStr o))); [eexists; reflexivity|]|];
    rewrite marker_step_strings; cbv zeta;
    match goal with |- context [if ?b then _ else _] => destruct b end;
    eexists; reflexivity.
Qed.

(** ** The longest-wins step *)

Lemma annotated_when_no_marker (g o : jstr) :
  no_marker g -> no_marker o ->
  JSON_parse g = None \/ JSON_parse o = None ->
  heuristicMerge (Some (JStr g)) (Some (JStr o)) = Normal (annotated g o).
Proof.
  intros Hg Ho Hparse.
  assert (Hstep : marker_step (Some (JStr g)) (Some (JStr o))
                  = Normal (annotated g o)).
  { rewrite marker_step_strings. cbv zeta.
    rewrite (fold_extract_absent g markers no_parts Hg).
    rewrite (fold_extract_absent o markers no_parts Ho).
    reflexivity. }
  unfold heuristicMerge, JSON_parse_value. simpl ToString_value. cbv iota.
  destruct Hparse as [H|H]; rewrite H.
  - exact Hstep.
  - destruct (JSON_parse g); exact Hstep.
Qed.

(** C5: on two reply strings in which no marker occurs and which do not both
    parse as JSON, the merger returns the annotated text: both replies under
    their headings, [(no reply)] in place of an empty one, and as preferred
    excerpt the longer of the two, OpenAI's on a tie. *)
Theorem longest_wins_fallback (g o : jstr) :
  no_marker g -> no_marker o ->
  JSON_parse g = None \/ JSON_parse o = None ->
  heuristicMerge (Some (JStr g)) (Some (JStr o)) = Normal (annotated g o).
Proof. apply annotated_when_no_marker. Qed.

(** ** The structured step on scalars *)

Lemma structured_step (g o : value) (gjson ojson : json) :
  JSON_parse_value g = Some gjson -> JSON_parse_value o = Some ojson ->
  heuristicMerge g o = Normal (JSON_stringify2 (merged_doc gjson ojson)).
Proof. intros Hg Ho. unfold heuristicMerge. now rewrite Hg, Ho. Qed.

Lemma JSON_parse_string (s : jstr) :
  JSON_parse_value (Some (JStr s)) = JSON_parse s.
Proof. reflexivity. Qed.

(** The document of the structured step starts with a brace, the two other
    outputs of the merger with a dash. *)
Lemma merged_doc_not_annotated (gjson ojson : json) (g o : jstr) :
  JSON_stringify2 (merged_doc gjson ojson) <> annotated g o.
Proof. unfold JSON_stringify2, merged_doc. cbn [serialize]. discriminate. Qed.

Lemma merged_doc_not_sections (gjson ojson : json) (parts : Parts) :
  JSON_stringify2 (merged_doc gjson ojson) <> sections parts.
Proof. unfold JSON_stringify2, merged_doc. cbn [serialize]. discriminate. Qed.

(** C10: the structured step takes every pair of reply strings that parse as
    JSON, whatever the values they parse to: the merger returns the nested
    document, which is neither the annotated nor the sectioned text.  Bare
    scalars are such strings: [1], [2], [null] and [true] parse, to a
    number, a number, [null] and a boolean; on [1] and [2], and on [null]
    and [true], the merger returns the nested document written out, with
    the two scalars under [gemini] and [openai]. *)
Theorem scalars_take_structured_step :
  (forall (g o : jstr) (gjson ojson : json),
     JSON_parse g = Some gjson -> JSON_parse o = Some ojson ->
     heuristicMerge (Some (JStr g)) (Some (JStr o))
     = Normal (JSON_stringify2 (merged_doc gjson ojson))
     /\ JSON_stringify2 (merged_doc gjson ojson) <> annotated g o
     /\ forall parts, JSON_stringify2 (merged_doc gjson ojson) <> sections parts)
  /\ JSON_parse (lit "1") = Some (JNum (lit "1"))
  /\ JSON_parse (lit "2") = Some (JNum (lit "2"))
  /\ JSON_parse (lit "null") = Some JNull
  /\ JSON_parse (lit "true") = Some (JBool true)
  /\ heuristicMerge (str "null") (str "true") = Normal doc_null_true
  /\ heuristicMerge (str "1") (str "2") = Normal doc_1_2.
Proof.
  split; [|repeat split; try (vm_compute; reflexivity)].
  - intros g o gjson ojson Hg Ho. split; [|split].
    + apply structured_step; now rewrite JSON_parse_string.
    + apply merged_doc_not_annotated.
    + intros parts. apply merged_doc_not_sections.
  - rewrite (structured_step (str "1") (str "2") (JNum (lit "1")) (JNum (lit "2")))
      by (vm_compute; reflexivity).
    unfold JSON_stringify2, merged_doc. cbn [serialize map fst snd join].
    rewrite (proj1 (safe_integer_exact (lit "1") eq_refl)).
    rewrite (proj1 (safe_integer_exact (lit "2") eq_refl)). reflexivity.
Qed.

(** ** The marker step and the marker [TRANSCRIPT:] *)

Lemma startsWith_app (p s : jstr) :
  startsWith s p = true -> s = p ++ skipn (List.length p) s.
Proof.
  revert s. induction p as [|x p IH]; intros s H; [reflexivity|].
  destruct s as [|y s]; simpl in H; [discriminate|].
  apply andb_prop in H as [Hx H]. apply N.eqb_eq in Hx. subst y.
  simpl. f_equal. now apply IH.
Qed.

Lemma includes_cons (c : N) (s m : jstr) :
  includes s m = true -> includes (c :: s) m = true.
Proof.
  unfold includes. cbn [indexOf].
  destruct (startsWith (c :: s) m); [reflexivity|].
  now destruct (indexOf s m).
Qed.

(** Every text in which [TRANSCRIPT:] occurs has [SCRIPT:] occurring. *)
Lemma transcript_has_script (s : jstr) :
  includes s (lit "TRANSCRIPT:") = true -> includes s (lit "SCRIPT:") = true.
Proof.
  induction s as [|c s IH]; [discriminate|].
  unfold includes at 1. cbn [indexOf].
  destruct (startsWith (c :: s) (lit "TRANSCRIPT:")) eqn:E.
  - intros _. rewrite (startsWith_app _ _ E). reflexivity.
  - intros H. apply includes_cons, IH. unfold includes.
    now destruct (indexOf s (lit "TRANSCRIPT:")).
Qed.

(** C4 (the code departs from it): [SCRIPT:] occurs inside [TRANSCRIPT:], so
    a reply whose only marker is [TRANSCRIPT:] fills the script bucket as
    well as the general one, and the output has a Script section. *)
Theorem transcript_fills_script :
  heuristicMerge (str "TRANSCRIPT: hello") empty_string = Normal transcript_out
  /\ includes (toUpperCase (lit "TRANSCRIPT: hello")) (lit "SCRIPT:") = true
  /\ fold_left (extract_marker (lit "TRANSCRIPT: hello")) markers no_parts
     = mkParts (nl ++ lit "hello") [] (nl ++ lit "hello")
  /\ includes transcript_out (lit "== Script ==") = true.
Proof.
  assert (U : toUpperCase (lit "TRANSCRIPT: hello") = lit "TRANSCRIPT: HELLO")
    by (now rewrite toUpperCase_ascii).
  assert (E : toUpperCase [] = []) by (now rewrite toUpperCase_ascii).
  assert (F : fold_left (extract_marker (lit "TRANSCRIPT: hello")) markers no_parts
              = mkParts (nl ++ lit "hello") [] (nl ++ lit "hello")).
  { unfold markers, extract_marker. cbn [fold_left]. rewrite U.
    vm_compute. reflexivity. }
  split; [|split; [|split]].
  - assert (N0 : forall m, In m markers -> includes (toUpperCase []) m = false).
    { intros m Hm. rewrite E. simpl in Hm.
      repeat (destruct Hm as [<-|Hm]; [reflexivity|]). contradiction. }
    unfold heuristicMerge.
    change (JSON_parse_value (str "TRANSCRIPT: hello")) with (@None json).
    unfold str, empty_string. rewrite marker_step_strings. cbv zeta.
    rewrite F, (fold_extract_absent [] markers _ N0). reflexivity.
  - rewrite U. reflexivity.
  - exact F.
  - vm_compute. reflexivity.
Qed.

(** ** Single mode without the OpenAI key *)

(** C8: whatever the prompt, a request in single mode for [openai], when
    [OPENAI_API_KEY] is not set, is answered 200 with the fixed placeholder
    of OpenAI; nothing is thrown and no request leaves. *)
Theorem single_openai_without_key
    (env : Env) (up : Upstream) (body : jstr) (b : json) (w : World) :
  JSON_parse body = Some b ->
  is_str (get (Some b) "mode") "single" = true ->
  is_str (get (Some b) "model") "openai" = true ->
  env_set (OPENAI_API_KEY env) = false ->
  POST_try env up body w
  = (Normal (mkResponse 200 (Some (JStr no_reply_openai))), w)
  /\ POST env up body w = (mkResponse 200 (Some (JStr no_reply_openai)), w).
Proof.
  intros Hb Hmode Hmodel Hkey.
  assert (Htry : POST_try env up body w
                 = (Normal (mkResponse 200 (Some (JStr no_reply_openai))), w)).
  { unfold POST_try. rewrite Hb.
    apply is_str_true in Hmode. apply is_str_true in Hmodel.
    destruct b; try discriminate Hmode.
    rewrite Hmode, Hmodel. simpl with_default.
    unfold dispatch. simpl is_str. cbv iota. simpl orb.
    unfold callOpenAI. rewrite Hkey. simpl. reflexivity. }
  split; [exact Htry|]. unfold POST. now rewrite Htry.
Qed.

(** ** The adapters and their credentials *)

Lemma callOpenAI_without_key (g : option jstr) (up : Upstream) (prompt : value)
    (w : World) :
  callOpenAI (mkEnv g None) up prompt w
  = (failure (Some (JStr (lit "OPENAI_API_KEY missing"))), w).
Proof. reflexivity. Qed.

(** C6 (the code departs from it): [callGemini] does not look at its
    credential; without [GEMINI_API_KEY] it still posts to the network, the
    key of the request being [undefined], where [callOpenAI] returns its
    failure at once. *)
Theorem callGemini_without_key_posts
    (k : option jstr) (up : Upstream) (prompt : value) (w : World) :
  sent (snd (callGemini (mkEnv None k) up prompt w))
  = sent w ++ [GeminiGenerate None prompt]
  /\ snd (callOpenAI (mkEnv k None) up prompt w) = w.
Proof.
  split; [|reflexivity].
  unfold callGemini, axios_post. simpl GEMINI_API_KEY.
  destruct (up (sent w) (GeminiGenerate None prompt)); simpl.
  - match goal with |- context [if ?c then _ else _] => destruct c end;
      reflexivity.
  - reflexivity.
Qed.

(** C7 (the code departs from it): on a 200 response without the reply
    field [callOpenAI] returns a success whose text is [undefined], where
    [callGemini] returns the serialised payload. *)
Theorem callOpenAI_missing_field_undefined :
  fst (callOpenAI env_keys up_no_choices (str "hi") new_world)
  = mkResult true undefined (Some (JObj [])) None
  /\ fst (callGemini env_keys (fun _ _ => Fulfilled (JObj [])) (str "hi") new_world)
     = mkResult true (str "{}") (Some (JObj [])) None.
Proof. split; vm_compute; reflexivity. Qed.

(** ** The reply of the handler *)

(** A body that does not parse is answered 500 with the fixed text, and
    nothing is sent upstream. *)
Lemma POST_unparsable_body (env : Env) (up : Upstream) (body : jstr) (w : World) :
  JSON_parse body = None ->
  fst (POST env up body w) = mkResponse 500 (Some (JStr error_reply))
  /\ sent (snd (POST env up body w)) = sent w.
Proof.
  intros H. unfold POST, POST_try. rewrite H. split; reflexivity.
Qed.

(** C2 (the code departs from it): when the synthesizer's call succeeds
    with a payload that has no reply field, the handler answers 200 with a
    reply that is [undefined]. *)
Theorem POST_undefined_reply :
  fst (POST env_keys up_no_choices body_hi new_world) = mkResponse 200 undefined
  /\ JSON_parse body_hi = Some (JObj [(lit "prompt", JStr (lit "hi"))])
  /\ fst (POST_try env_keys up_no_choices body_hi new_world)
     = Normal (mkResponse 200 undefined).
Proof. repeat split; vm_compute; reflexivity. Qed.

(** ** Fusion mode *)

Lemma POST_try_parsed (env : Env) (up : Upstream) (body : jstr) (b : json)
    (w : World) :
  JSON_parse body = Some b -> b <> JNull ->
  POST_try env up body w
  = (let (sl, w1) := collected env up b w in
     if is_str (mode_of b) "single" then (Normal (single (model_of b) sl), w1)
     else fusion env up (get (Some b) "prompt") sl w1).
Proof.
  intros Hb Hnull. unfold POST_try, collected, mode_of, model_of. rewrite Hb.
  destruct b; try congruence;
    destruct (dispatch env up _ _ w) as [results w1]; reflexivity.
Qed.

(** With the key, and when the meta-prompt can be built, the synthesizer
    returns a result and has sent one request, which carries the
    meta-prompt. *)
Lemma synthesize_sends (env : Env) (up : Upstream) (g o prompt : value)
    (content : jstr) (w : World) :
  env_set (OPENAI_API_KEY env) = true ->
  synthPrompt g o prompt = Normal content ->
  (exists r, fst (synthesizeWithOpenAI env up g o prompt w) = Normal r)
  /\ sent (snd (synthesizeWithOpenAI env up g o prompt w))
     = sent w ++ [OpenAIChat (OPENAI_API_KEY env) (Some (JStr content))].
Proof.
  intros Hk Hc. unfold synthesizeWithOpenAI, axios_post. rewrite Hk, Hc. simpl.
  destruct (up _ _); split; try reflexivity; eexists; reflexivity.
Qed.

(** The meta-prompt throws before anything is sent. *)
Lemma synthesize_throws (env : Env) (up : Upstream) (g o prompt : value)
    (e : exn) (w : World) :
  env_set (OPENAI_API_KEY env) = true ->
  synthPrompt g o prompt = Throw e ->
  synthesizeWithOpenAI env up g o prompt w = (Throw e, w).
Proof.
  intros Hk Hc. unfold synthesizeWithOpenAI. now rewrite Hk, Hc.
Qed.

Lemma truthy_string (s : jstr) : truthy (Some (JStr s)) = negb (is_empty s).
Proof. destruct s; reflexivity. Qed.

Lemma truthy_or_strings (g o : jstr) :
  g <> [] \/ o <> [] ->
  truthy (js_or (Some (JStr g)) (Some (JStr o))) = true.
Proof.
  unfold js_or. intros [H|H].
  - destruct g; [congruence|reflexivity].
  - destruct g; simpl; [destruct o; [congruence|reflexivity]|reflexivity].
Qed.

(** X16: the handler answers 500, with the fixed text, exactly when the
    block under [try] throws; otherwise it answers 200. *)
Lemma POST_status (env : Env) (up : Upstream) (body : jstr) (w : World) :
  (exists e, fst (POST_try env up body w) = Throw e
             /\ fst (POST env up body w) = mkResponse 500 (Some (JStr error_reply)))
  \/ (exists r, fst (POST_try env up body w) = Normal r
                /\ fst (POST env up body w) = r /\ status r = 200%nat).
Proof.
  unfold POST. destruct (POST_try env up body w) as [[r|e] w1] eqn:E.
  - right. exists r. repeat split.
    destruct (JSON_parse body) as [b|] eqn:Hb;
      [|unfold POST_try in E; rewrite Hb in E; discriminate].
    assert (Hnull : b <> JNull).
    { intros ->. unfold POST_try in E. rewrite Hb in E. discriminate. }
    rewrite (POST_try_parsed env up body b w Hb Hnull) in E.
    destruct (collected env up b w) as [sl w1'].
    destruct (is_str (mode_of b) "single").
    + injection E as <- _. unfold single.
      destruct (is_str _ "gemini"); [reflexivity|].
      destruct (is_str _ "openai"); reflexivity.
    + unfold fusion in E.
      destruct (env_set (OPENAI_API_KEY env) && _).
      * destruct (synthesizeWithOpenAI env up _ _ _ w1') as [[synth|e] w2];
          [|discriminate].
        destruct (ok synth); [now injection E as <- _|].
        destruct (heuristicMerge _ _); [|discriminate].
        now injection E as <- _.
      * destruct (heuristicMerge _ _); [|discriminate].
        now injection E as <- _.
  - left. exists e. split; reflexivity.
Qed.

(** C1, as amended: in fusion mode, if [OPENAI_API_KEY] is set and one of
    the two collected texts is truthy, then, when the prompt and the two
    texts convert to strings, the synthesizer's request is sent with the
    meta-prompt built from them and, when it succeeds, its text is the
    reply; when it fails, or when the key is not set (or both texts are
    empty), the reply is the merger's output on the two texts whenever the
    merger returns, which it does when the two texts are strings.  The
    status is 200 in each case. *)
Theorem fusion_reply
    (env : Env) (up : Upstream) (body : jstr) (b : json) (w w1 : World)
    (sl : Slots) :
  JSON_parse body = Some b -> b <> JNull ->
  is_str (mode_of b) "single" = false ->
  collected env up b w = (sl, w1) ->
  let prompt := get (Some b) "prompt" in
  let synth := synthesizeWithOpenAI env up (gemT sl) (openT sl) prompt w1 in
  (env_set (OPENAI_API_KEY env) = true ->
   truthy (js_or (gemT sl) (openT sl)) = true ->
   forall content,
     synthPrompt (gemT sl) (openT sl) prompt = Normal content ->
     exists r,
       fst synth = Normal r
       /\ sent (snd synth)
          = sent w1 ++ [OpenAIChat (OPENAI_API_KEY env) (Some (JStr content))]
       /\ (ok r = true ->
           POST env up body w = (mkResponse 200 (text r), snd synth))
       /\ (ok r = false ->
           forall m, heuristicMerge (gemT sl) (openT sl) = Normal m ->
                     POST env up body w
                     = (mkResponse 200 (Some (JStr m)), snd synth)))
  /\ (env_set (OPENAI_API_KEY env) = false
      \/ truthy (js_or (gemT sl) (openT sl)) = false ->
      forall m, heuristicMerge (gemT sl) (openT sl) = Normal m ->
                POST env up body w = (mkResponse 200 (Some (JStr m)), w1))
  /\ (is_string (gemT sl) = true -> is_string (openT sl) = true ->
      exists m, heuristicMerge (gemT sl) (openT sl) = Normal m).
Proof.
  intros Hb Hnull Hmode Hcol prompt synth.
  assert (Htry : POST_try env up body w = fusion env up prompt sl w1).
  { rewrite (POST_try_parsed env up body b w Hb Hnull), Hcol, Hmode.
    reflexivity. }
  unfold POST. rewrite Htry. unfold fusion. split; [|split].
  - intros Hk Ht content Hc. rewrite Hk, Ht. simpl andb. cbv iota.
    destruct (synthesize_sends env up (gemT sl) (openT sl) prompt content w1 Hk Hc)
      as [[r Hr] Hsent].
    fold synth in Hr, Hsent |- *. exists r. split; [exact Hr|].
    split; [exact Hsent|].
    destruct synth as [c w2]. simpl in Hr. subst c. simpl snd.
    split; intros Hok; [now rewrite Hok|].
    intros m Hm. now rewrite Hok, Hm.
  - intros Hk m Hm.
    assert (Hc : env_set (OPENAI_API_KEY env)
                 && truthy (js_or (gemT sl) (openT sl)) = false).
    { destruct Hk as [-> | ->]; [reflexivity|apply andb_false_r]. }
    rewrite Hc, Hm. reflexivity.
  - intros Hg Ho.
    destruct (gemT sl) as [[| | |g| |]|]; try discriminate Hg.
    destruct (openT sl) as [[| | |o| |]|]; try discriminate Ho.
    apply heuristicMerge_strings_normal.
Qed.
(** ** [JSON.parse] reads back what [JSON.stringify] writes *)

(** *** String literals *)

Lemma hex_val_hex_digit (n : N) : n < 16 -> hex_val (hex_digit n) = Some n.
Proof.
  intros Hn. unfold hex_digit, hex_val, is_digit.
  destruct (N.ltb_spec n 10).
  - replace (48 <=? 48 + n) with true by (symmetry; apply N.leb_le; lia).
    replace (48 + n <=? 57) with true by (symmetry; apply N.leb_le; lia).
    cbn [andb]. f_equal. lia.
  - replace (87 + n <=? 57) with false by (symmetry; apply N.leb_gt; lia).
    rewrite andb_false_r.
    replace (97 <=? 87 + n) with true by (symmetry; apply N.leb_le; lia).
    replace (87 + n <=? 102) with true by (symmetry; apply N.leb_le; lia).
    cbn [andb]. f_equal. lia.
Qed.

Lemma hex4_u_escape (c : N) (t : jstr) :
  c < 65536 ->
  parse_chars (u_escape c ++ t) = cons_chars c (parse_chars t).
Proof.
  intros Hc. unfold u_escape. cbn [app].
  change (parse_chars (92 :: 117 :: ?a :: ?b :: ?x :: ?y :: t))
    with (match hex4 a b x y with
          | Some u => cons_chars u (parse_chars t)
          | None => None
          end).
  unfold hex4.
  rewrite !hex_val_hex_digit by (apply N.mod_lt; discriminate).
  replace (((c / 4096 mod 16 * 16 + c / 256 mod 16) * 16 + c / 16 mod 16) * 16
           + c mod 16) with c; [reflexivity|].
  clear t. zify. Z.to_euclidean_division_equations. lia.
Qed.

Lemma parse_chars_escape (e : N) (t : jstr) :
  e <> 117 ->
  parse_chars (92 :: e :: t)
  = match unescape e with
    | Some u => cons_chars u (parse_chars t)
    | None => None
    end.
Proof.
  intros He. apply N.eqb_neq in He.
  change (parse_chars (92 :: e :: t))
    with (if e =? 117
          then match t with
               | h1 :: h2 :: h3 :: h4 :: s3 =>
                 match hex4 h1 h2 h3 h4 with
                 | Some u => cons_chars u (parse_chars s3)
                 | None => None
                 end
               | _ => None
               end
          else match unescape e with
               | Some u => cons_chars u (parse_chars t)
               | None => None
               end).
  now rewrite He.
Qed.

Lemma parse_chars_plain (c : N) (t : jstr) :
  c <> 34 -> c <> 92 -> 32 <= c ->
  parse_chars (c :: t) = cons_chars c (parse_chars t).
Proof.
  intros H1 H2 H3.
  apply N.eqb_neq in H1. apply N.eqb_neq in H2. apply N.ltb_ge in H3.
  cbn [parse_chars]. now rewrite H1, H2, H3.
Qed.

Lemma surrogate_small (c : N) :
  is_high_surrogate c || is_low_surrogate c = true -> c < 65536.
Proof.
  unfold is_high_surrogate, is_low_surrogate. intros H.
  apply orb_prop in H as [H|H]; apply andb_prop in H as [_ H];
    apply N.leb_le in H; lia.
Qed.

Lemma parse_chars_quote_body_len (n : nat) :
  forall s rest, (List.length s <= n)%nat ->
  parse_chars (quote_body s ++ 34 :: rest) = Some (s, rest).
Proof.
  induction n as [|n IH]; intros [|c s'] rest Hlen; simpl in Hlen;
    try reflexivity; try lia.
  assert (IH1 : forall r, parse_chars (quote_body s' ++ 34 :: r) = Some (s', r))
    by (intros r; apply IH; lia).
  cbn [quote_body].
  destruct (N.eqb_spec c 8) as [->|N8];
    [rewrite <- app_assoc; cbn [app]; rewrite parse_chars_escape by discriminate;
     cbn; now rewrite IH1|].
  destruct (N.eqb_spec c 9) as [->|N9];
    [rewrite <- app_assoc; cbn [app]; rewrite parse_chars_escape by discriminate;
     cbn; now rewrite IH1|].
  destruct (N.eqb_spec c 10) as [->|N10];
    [rewrite <- app_assoc; cbn [app]; rewrite parse_chars_escape by discriminate;
     cbn; now rewrite IH1|].
  destruct (N.eqb_spec c 12) as [->|N12];
    [rewrite <- app_assoc; cbn [app]; rewrite parse_chars_escape by discriminate;
     cbn; now rewrite IH1|].
  destruct (N.eqb_spec c 13) as [->|N13];
    [rewrite <- app_assoc; cbn [app]; rewrite parse_chars_escape by discriminate;
     cbn; now rewrite IH1|].
  destruct (N.eqb_spec c 34) as [->|N34];
    [rewrite <- app_assoc; cbn [app]; rewrite parse_chars_escape by discriminate;
     cbn; now rewrite IH1|].
  destruct (N.eqb_spec c 92) as [->|N92];
    [rewrite <- app_assoc; cbn [app]; rewrite parse_chars_escape by discriminate;
     cbn; now rewrite IH1|].
  destruct (N.ltb_spec c 32) as [L32|G32].
  { rewrite <- app_assoc, hex4_u_escape by lia. now rewrite IH1. }
  destruct (is_high_surrogate c) eqn:Hhi.
  { assert (Hc : c < 65536) by (apply surrogate_small; now rewrite Hhi).
    destruct s' as [|d s''].
    - rewrite hex4_u_escape by exact Hc. reflexivity.
    - destruct (is_low_surrogate d) eqn:Hlo.
      + cbn [app]. rewrite parse_chars_plain by assumption.
        assert (Hd : 56320 <= d)
          by (unfold is_low_surrogate in Hlo; apply andb_prop in Hlo as [Hlo _];
              now apply N.leb_le in Hlo).
        rewrite parse_chars_plain by lia.
        rewrite (IH s'' rest) by (simpl in Hlen; lia). reflexivity.
      + rewrite <- app_assoc, hex4_u_escape by exact Hc. now rewrite IH1. }
  destruct (is_low_surrogate c) eqn:Hlo.
  { assert (Hc : c < 65536)
      by (apply surrogate_small; rewrite Hlo; apply orb_true_r).
    rewrite <- app_assoc, hex4_u_escape by exact Hc. now rewrite IH1. }
  cbn [app]. rewrite parse_chars_plain by assumption. now rewrite IH1.
Qed.

Lemma parse_chars_quote (s rest : jstr) :
  parse_chars (quote_body s ++ 34 :: rest) = Some (s, rest).
Proof. now apply (parse_chars_quote_body_len (List.length s)). Qed.

(** *** Number literals *)

Lemma span_digits_spec (s : jstr) :
  forall d r, span_digits s = (d, r) ->
  s = d ++ r
  /\ forallb is_digit d = true
  /\ forall rest, head_ok not_digit rest = true ->
       span_digits (d ++ rest) = (d, rest).
Proof.
  induction s as [|c s IH]; intros d r H; simpl in H.
  - injection H as <- <-. repeat split. intros [|c rest] Hr; simpl in *.
    + reflexivity.
    + unfold not_digit in Hr. apply negb_true_iff in Hr. now rewrite Hr.
  - destruct (is_digit c) eqn:Hc.
    + destruct (span_digits s) as [d' r'] eqn:E. injection H as <- <-.
      destruct (IH d' r' eq_refl) as (-> & Hd & Hext).
      repeat split.
      * simpl. now rewrite Hc, Hd.
      * intros rest Hr. simpl. rewrite Hc, (Hext rest Hr). reflexivity.
    + injection H as <- <-. repeat split. intros [|c' rest] Hr; simpl in *.
      * reflexivity.
      * unfold not_digit in Hr. apply negb_true_iff in Hr. now rewrite Hr.
Qed.

Lemma stop_not_digit (rest : jstr) :
  head_ok stop_unit rest = true -> head_ok not_digit rest = true.
Proof.
  destruct rest as [|c rest]; simpl; [reflexivity|].
  unfold stop_unit, not_digit. destruct (is_digit c); [discriminate|reflexivity].
Qed.

Lemma head_digit_not_digit (c : N) (d rest : jstr) :
  is_digit c = true -> head_ok not_digit ((c :: d) ++ rest) = false.
Proof. intros H. simpl. unfold not_digit. now rewrite H. Qed.

Lemma scan_int_spec (s i r : jstr) :
  scan_int s = Some (i, r) ->
  s = i ++ r
  /\ head_ok is_digit i = true /\ i <> []
  /\ forall rest, head_ok not_digit rest = true ->
       scan_int (i ++ rest) = Some (i, rest).
Proof.
  destruct s as [|c s]; simpl; [discriminate|].
  destruct (N.eqb_spec c 48) as [->|N0].
  - intros H. injection H as <- <-. repeat split; try discriminate.
  - destruct (is_digit c) eqn:Hc; [|discriminate].
    destruct (span_digits s) as [d r'] eqn:E. intros H. injection H as <- <-.
    destruct (span_digits_spec s d r' E) as (-> & Hd & Hext).
    repeat split; try discriminate; try exact Hc.
    intros rest Hr. simpl. apply N.eqb_neq in N0. rewrite N0, Hc.
    now rewrite (Hext rest Hr).
Qed.

Lemma scan_frac_spec (s f r : jstr) :
  scan_frac s = Some (f, r) ->
  s = f ++ r
  /\ head_ok is_point f = true
  /\ forall rest, head_ok frac_stop rest = true ->
       scan_frac (f ++ rest) = Some (f, rest).
Proof.
  assert (Hnil : forall rest, head_ok frac_stop rest = true ->
                   scan_frac rest = Some ([], rest)).
  { intros [|c rest] Hr; simpl in *; [reflexivity|].
    unfold frac_stop in Hr. apply negb_true_iff, orb_false_elim in Hr as [_ Hr].
    now rewrite Hr. }
  destruct s as [|c s]; simpl.
  - intros H. injection H as <- <-. repeat split. exact Hnil.
  - destruct (N.eqb_spec c 46) as [->|N46].
    + destruct (span_digits s) as [d r'] eqn:E.
      destruct (span_digits_spec s d r' E) as (-> & Hd & Hext).
      destruct d as [|d0 d]; [discriminate|].
      intros H. injection H as <- <-. repeat split.
      intros rest Hr.
      change ((46 :: d0 :: d) ++ rest) with (46 :: ((d0 :: d) ++ rest)).
      unfold scan_frac. simpl (46 =? 46). cbv iota.
      rewrite (Hext rest); [reflexivity|].
      destruct rest as [|c rest]; simpl in *; [reflexivity|].
      unfold frac_stop in Hr. unfold not_digit.
      destruct (is_digit c); [discriminate|reflexivity].
    + intros H. injection H as <- <-. repeat split. exact Hnil.
Qed.

Lemma head_ok_app (p : N -> bool) (a b : jstr) :
  head_ok p (a ++ b) = match a with [] => head_ok p b | c :: _ => p c end.
Proof. destruct a; reflexivity. Qed.

Lemma digit_not_sign (c : N) :
  is_digit c = true -> (c =? 43) || (c =? 45) = false.
Proof.
  unfold is_digit. intros H. apply andb_prop in H as [H _].
  apply N.leb_le in H.
  destruct (N.eqb_spec c 43), (N.eqb_spec c 45); try reflexivity; lia.
Qed.

Lemma scan_sign_spec (s sg r d rest : jstr) :
  scan_sign s = (sg, r) -> head_ok is_digit d = true -> d <> [] ->
  s = sg ++ r /\ scan_sign (sg ++ d ++ rest) = (sg, d ++ rest).
Proof.
  intros H Hd Hne.
  assert (Hdigits : scan_sign (d ++ rest) = ([], d ++ rest)).
  { destruct d as [|d0 d]; [congruence|]. simpl in *.
    now rewrite digit_not_sign. }
  destruct s as [|c s]; simpl in H.
  - injection H as <- <-. split; [reflexivity|exact Hdigits].
  - destruct ((c =? 43) || (c =? 45)) eqn:Hc; injection H as <- <-.
    + split; [reflexivity|]. simpl. now rewrite Hc.
    + split; [reflexivity|exact Hdigits].
Qed.

Lemma span_digits_head (s d r : jstr) :
  span_digits s = (d, r) -> head_ok is_digit d = true.
Proof.
  intros H. destruct (span_digits_spec s d r H) as (_ & Hd & _).
  destruct d; simpl in *; [reflexivity|].
  now apply andb_prop in Hd as [Hd _].
Qed.

Lemma scan_exp_spec (s e r : jstr) :
  scan_exp s = Some (e, r) ->
  s = e ++ r
  /\ head_ok is_e e = true
  /\ forall rest, head_ok stop_unit rest = true ->
       scan_exp (e ++ rest) = Some (e, rest).
Proof.
  assert (Hnil : forall rest, head_ok stop_unit rest = true ->
                   scan_exp rest = Some ([], rest)).
  { intros [|c rest] Hr; simpl in *; [reflexivity|].
    unfold stop_unit in Hr. apply negb_true_iff in Hr.
    destruct (is_digit c); [discriminate|]. simpl in Hr.
    destruct (c =? 46); [discriminate|]. simpl in Hr. now rewrite Hr. }
  destruct s as [|c s]; simpl.
  - intros H. injection H as <- <-. repeat split. exact Hnil.
  - destruct ((c =? 101) || (c =? 69)) eqn:Hc.
    + destruct (scan_sign s) as [sg s2] eqn:Es.
      destruct (span_digits s2) as [d r'] eqn:Ed.
      destruct (span_digits_spec s2 d r' Ed) as (-> & Hd & Hext).
      pose proof (span_digits_head _ _ _ Ed) as Hhd.
      destruct d as [|d0 d]; [discriminate|].
      intros H. injection H as <- <-.
      destruct (scan_sign_spec s sg ((d0 :: d) ++ r') (d0 :: d) r' Es Hhd)
        as [-> _]; [discriminate|].
      repeat split.
      * simpl. now rewrite <- app_assoc.
      * exact Hc.
      * intros rest Hr.
        change ((c :: sg ++ d0 :: d) ++ rest)
          with (c :: ((sg ++ d0 :: d) ++ rest)).
        unfold scan_exp. rewrite Hc. rewrite <- app_assoc.
        destruct (scan_sign_spec _ sg _ (d0 :: d) rest Es Hhd) as [_ ->];
          [discriminate|].
        rewrite (Hext rest (stop_not_digit rest Hr)). reflexivity.
    + intros H. injection H as <- <-. repeat split. exact Hnil.
Qed.

Lemma digit_range (c : N) : is_digit c = true <-> 48 <= c <= 57.
Proof.
  unfold is_digit. rewrite andb_true_iff, !N.leb_le. reflexivity.
Qed.

Lemma point_not_digit (c : N) : is_point c = true -> not_digit c = true.
Proof.
  unfold is_point, not_digit. intros H. apply N.eqb_eq in H. now subst.
Qed.

Lemma e_frac_stop (c : N) : is_e c = true -> frac_stop c = true.
Proof.
  unfold is_e, frac_stop. intros H.
  apply orb_prop in H as [H|H]; apply N.eqb_eq in H; now subst.
Qed.

Lemma stop_frac_stop (c : N) : stop_unit c = true -> frac_stop c = true.
Proof.
  unfold stop_unit, frac_stop. destruct (is_digit c), (c =? 46); simpl; congruence.
Qed.

Lemma frac_stop_not_digit (c : N) : frac_stop c = true -> not_digit c = true.
Proof.
  unfold frac_stop, not_digit. destruct (is_digit c); simpl; congruence.
Qed.

Lemma scan_minus_spec (s sg s1 : jstr) :
  scan_minus s = (sg, s1) ->
  s = sg ++ s1
  /\ (sg = [] \/ sg = [45])
  /\ forall t, head_ok is_digit t = true -> t <> [] ->
       scan_minus (sg ++ t) = (sg, t).
Proof.
  assert (Hdigits : forall t, head_ok is_digit t = true -> t <> [] ->
                      scan_minus t = ([], t)).
  { intros [|c t] Ht Hne; [congruence|]. simpl in *.
    apply digit_range in Ht.
    destruct (N.eqb_spec c 45); [lia|reflexivity]. }
  destruct s as [|c s]; simpl.
  - intros H. injection H as <- <-. repeat split; auto.
  - destruct (N.eqb_spec c 45) as [->|Hc]; intros H; injection H as <- <-.
    + repeat split; auto.
    + repeat split; auto.
Qed.

Lemma scan_number_spec (s l r : jstr) :
  scan_number s = Some (l, r) ->
  s = l ++ r
  /\ l <> []
  /\ head_ok (fun c => is_digit c || (c =? 45)) l = true
  /\ forall rest, head_ok stop_unit rest = true ->
       scan_number (l ++ rest) = Some (l, rest).
Proof.
  unfold scan_number.
  destruct (scan_minus s) as [sg s1] eqn:Em.
  destruct (scan_int s1) as [[i s2]|] eqn:Ei; [|discriminate].
  destruct (scan_frac s2) as [[f s3]|] eqn:Ef; [|discriminate].
  destruct (scan_exp s3) as [[e s4]|] eqn:Ee; [|discriminate].
  intros H. injection H as <- <-.
  destruct (scan_minus_spec _ _ _ Em) as (-> & Hsg & Hm).
  destruct (scan_int_spec _ _ _ Ei) as (-> & Hi & Hine & Hiext).
  destruct (scan_frac_spec _ _ _ Ef) as (-> & Hf & Hfext).
  destruct (scan_exp_spec _ _ _ Ee) as (-> & He & Heext).
  assert (Hhead : forall t, head_ok is_digit (i ++ t) = true /\ i ++ t <> []).
  { intros t. destruct i as [|i0 i]; [congruence|]. split; [exact Hi|discriminate]. }
  repeat split.
  - now rewrite <- !app_assoc.
  - destruct Hsg as [->| ->]; destruct i; simpl; congruence.
  - destruct Hsg as [->| ->]; [|reflexivity].
    destruct i as [|i0 i]; [congruence|]. simpl in *. now rewrite Hi.
  - intros rest Hr. rewrite <- !app_assoc.
    rewrite (Hm (i ++ f ++ e ++ rest)) by apply Hhead.
    assert (Hfs : head_ok frac_stop (e ++ rest) = true).
    { rewrite head_ok_app. destruct e as [|e0 e].
      - destruct rest; simpl in *; [reflexivity|now apply stop_frac_stop].
      - now apply e_frac_stop. }
    rewrite (Hiext (f ++ e ++ rest)).
    + rewrite (Hfext (e ++ rest) Hfs), (Heext rest Hr). reflexivity.
    + rewrite head_ok_app. destruct f as [|f0 f].
      * destruct (e ++ rest); simpl in *; [reflexivity|].
        now apply frac_stop_not_digit.
      * now apply point_not_digit.
Qed.


Lemma valid_number_spec (l : jstr) :
  valid_number l = true ->
  l <> []
  /\ head_ok (fun c => is_digit c || (c =? 45)) l = true
  /\ forall rest, head_ok stop_unit rest = true ->
       scan_number (l ++ rest) = Some (l, rest).
Proof.
  unfold valid_number.
  destruct (scan_number l) as [[l' [|]]|] eqn:E; try discriminate.
  intros H. apply jstr_eqb_eq in H. subst l'.
  destruct (scan_number_spec l l [] E) as (_ & H1 & H2 & H3). auto.
Qed.

(** *** Objects in enumeration order *)

Lemma jstr_eqb_refl (a : jstr) : jstr_eqb a a = true.
Proof. now apply jstr_eqb_eq. Qed.

Lemma jstr_eqb_sym (a b : jstr) : jstr_eqb a b = jstr_eqb b a.
Proof.
  destruct (jstr_eqb a b) eqn:E.
  - apply jstr_eqb_eq in E. subst. now rewrite jstr_eqb_refl.
  - destruct (jstr_eqb b a) eqn:E'; [|reflexivity].
    apply jstr_eqb_eq in E'. subst. now rewrite jstr_eqb_refl in E.
Qed.

Lemma ordered_app_l (a b : list jstr) :
  ordered (a ++ b) = true -> ordered a = true.
Proof.
  induction a as [|k1 [|k2 a] IH]; simpl; intros H; try reflexivity.
  apply andb_prop in H as [H1 H2]. rewrite H1. simpl. apply IH. exact H2.
Qed.

Lemma ordered_head_le (l : list jstr) :
  forall k' k n, ordered (k' :: l ++ [k]) = true -> array_index k = Some n ->
  exists n', array_index k' = Some n' /\ n' <= n.
Proof.
  induction l as [|k2 l IH]; intros k' k n H Hk; simpl in H.
  - rewrite andb_true_r in H. unfold key_le in H. rewrite Hk in H.
    destruct (array_index k') as [a|]; [|discriminate].
    exists a. split; [reflexivity|now apply N.leb_le].
  - apply andb_prop in H as [H1 H2].
    destruct (IH k2 k n H2 Hk) as (n2 & Hn2 & Hle).
    unfold key_le in H1. rewrite Hn2 in H1.
    destruct (array_index k') as [a|]; [|discriminate].
    exists a. split; [reflexivity|]. apply N.leb_le in H1. lia.
Qed.

Lemma insert_at_end (n : N) (k : jstr) (v : json) (acc : list (jstr * json)) :
  ordered (map fst acc ++ [k]) = true -> array_index k = Some n ->
  obj_insert_index n k v acc = acc ++ [(k, v)].
Proof.
  intros H Hk. induction acc as [|[k' v'] acc IH]; [reflexivity|].
  simpl map in H. simpl app in H.
  destruct (ordered_head_le _ _ _ _ H Hk) as (n' & Hn' & Hle).
  simpl. rewrite Hn'. apply N.leb_le in Hle. rewrite Hle. f_equal. apply IH.
  destruct (map fst acc ++ [k]) eqn:E; [reflexivity|].
  simpl in H. now apply andb_prop in H as [_ H].
Qed.

Lemma distinct_app_absent (a b : list jstr) (k : jstr) :
  distinct (a ++ k :: b) = true ->
  existsb (fun k' => jstr_eqb k' k) a = false.
Proof.
  induction a as [|x a IH]; simpl; intros H; [reflexivity|].
  apply andb_prop in H as [H1 H2]. rewrite (IH H2), orb_false_r.
  apply negb_true_iff in H1. rewrite existsb_app in H1.
  apply orb_false_elim in H1 as [_ H1]. simpl in H1.
  apply orb_false_elim in H1 as [H1 _]. now rewrite jstr_eqb_sym.
Qed.

Lemma obj_has_keys (k : jstr) (ps : list (jstr * json)) :
  obj_has k ps = existsb (fun k' => jstr_eqb k' k) (map fst ps).
Proof.
  unfold obj_has. induction ps as [|[k' v'] ps IH]; simpl; [reflexivity|].
  now rewrite IH.
Qed.

Lemma obj_set_at_end (k : jstr) (v : json) (acc rest : list (jstr * json)) :
  normal_keys (acc ++ (k, v) :: rest) = true ->
  obj_set k v acc = acc ++ [(k, v)].
Proof.
  unfold normal_keys. rewrite map_app. simpl map. intros H.
  apply andb_prop in H as [Hord Hdis].
  unfold obj_set. rewrite obj_has_keys, (distinct_app_absent _ _ _ Hdis).
  destruct (array_index k) as [n|] eqn:Hk; [|reflexivity].
  apply insert_at_end; [|exact Hk].
  change (map fst acc ++ k :: map fst rest)
    with (map fst acc ++ [k] ++ map fst rest) in Hord.
  rewrite app_assoc in Hord. now apply ordered_app_l in Hord.
Qed.

Lemma build_object_from (ps acc : list (jstr * json)) :
  normal_keys (acc ++ ps) = true ->
  fold_left (fun a kv => obj_set (fst kv) (snd kv) a) ps acc = acc ++ ps.
Proof.
  revert acc. induction ps as [|[k v] ps IH]; intros acc H; simpl.
  - now rewrite app_nil_r.
  - rewrite (obj_set_at_end k v acc ps H).
    rewrite IH; rewrite <- app_assoc; [reflexivity|exact H].
Qed.

Lemma build_object_normal (ps : list (jstr * json)) :
  normal_keys ps = true -> build_object ps = ps.
Proof. intros H. unfold build_object. now rewrite build_object_from. Qed.











(** *** What [JSON.parse] produces is well formed *)





(** *** The shape of a serialised value *)

Lemma join_cons (sep x : jstr) (l : list jstr) :
  join sep (x :: l) = x ++ List.concat (map (fun y => sep ++ y) l).
Proof.
  revert x. induction l as [|y l IH]; intros x.
  - simpl. now rewrite app_nil_r.
  - change (join sep (x :: y :: l)) with (x ++ sep ++ join sep (y :: l)).
    rewrite IH. simpl. now rewrite <- app_assoc.
Qed.

Lemma serialize_arr (gap : bool) (d : nat) (e : json) (l : list json) :
  serialize gap d (JArr (e :: l))
  = 91 :: newline gap (S d) ++ serialize gap (S d) e ++ tail_elems gap d l.
Proof.
  cbn [serialize map]. rewrite (join_cons _ _ (map (serialize gap (S d)) l)).
  unfold tail_elems. rewrite map_map. simpl. now rewrite <- !app_assoc.
Qed.

Lemma serialize_obj (gap : bool) (d : nat) (kv : jstr * json)
    (ps : list (jstr * json)) :
  serialize gap d (JObj (kv :: ps))
  = 123 :: newline gap (S d) ++ item gap d kv ++ tail_members gap d ps.
Proof.
  cbn [serialize map fst snd].
  rewrite (join_cons _ _ (map (fun kv => quote (fst kv) ++ colon gap
                                          ++ serialize gap (S d) (snd kv)) ps)).
  unfold tail_members, item. rewrite map_map. simpl. now rewrite <- !app_assoc.
Qed.

Lemma skip_ws_spaces (n : nat) (s : jstr) :
  skip_ws (repeat 32 n ++ s) = skip_ws s.
Proof. induction n as [|n IH]; [reflexivity|exact IH]. Qed.

Lemma skip_ws_newline (gap : bool) (d : nat) (s : jstr) :
  skip_ws (newline gap d ++ s) = skip_ws s.
Proof.
  destruct gap; [|reflexivity]. unfold newline.
  change (skip_ws ((10 :: repeat 32 (2 * d)) ++ s))
    with (skip_ws (repeat 32 (2 * d) ++ s)).
  apply skip_ws_spaces.
Qed.

Lemma value_start_facts (c : N) :
  value_start c = true ->
  is_ws c = false /\ (c =? 93) = false /\ (c =? 125) = false /\ (c =? 44) = false.
Proof.
  unfold value_start. intros H.
  repeat (apply orb_prop in H as [H|H]);
    try (apply N.eqb_eq in H; subst c; repeat split; reflexivity).
  apply digit_range in H. unfold is_ws.
  repeat split; repeat (apply orb_false_intro); apply N.eqb_neq; lia.
Qed.

Lemma skip_ws_start (c : N) (s : jstr) :
  value_start c = true -> skip_ws (c :: s) = c :: s.
Proof.
  intros H. destruct (value_start_facts c H) as (Hws & _). simpl.
  now rewrite Hws.
Qed.

Lemma serialize_start (gap : bool) (d : nat) (v : json) :
  printable v = true ->
  exists c t, serialize gap d v = c :: t /\ value_start c = true.
Proof.
  destruct v as [|[|]|l|s|[|e l]|[|kv ps]]; intros H; simpl;
    try (eexists; eexists; split; reflexivity).
  simpl in H. unfold printable_number, prints_null in H.
  apply orb_prop in H as [H|H].
  - apply jstr_eqb_eq in H. rewrite H.
    eexists; eexists; split; reflexivity.
  - destruct (valid_number_spec _ H) as (Hne & Hhd & _).
    destruct (number_json l) as [|c l']; [congruence|]. exists c, l'.
    split; [reflexivity|].
    simpl in Hhd. unfold value_start. now rewrite Hhd.
Qed.

Lemma size_pos (v : json) : (1 <= size v)%nat.
Proof. destruct v; simpl; lia. Qed.

Lemma tail_elems_stop (gap : bool) (d : nat) (l : list json) (rest : jstr) :
  head_ok stop_unit (tail_elems gap d l ++ rest) = true.
Proof. destruct l, gap; reflexivity. Qed.

Lemma tail_members_stop (gap : bool) (d : nat) (ps : list (jstr * json))
    (rest : jstr) :
  head_ok stop_unit (tail_members gap d ps ++ rest) = true.
Proof. destruct ps, gap; reflexivity. Qed.

Lemma number_start_facts (c : N) :
  is_digit c || (c =? 45) = true ->
  (c =? 123) = false /\ (c =? 91) = false /\ (c =? 34) = false
  /\ (116 =? c) = false /\ (102 =? c) = false /\ (110 =? c) = false.
Proof.
  intros H. apply orb_prop in H as [H|H].
  - apply digit_range in H. repeat split; apply N.eqb_neq; lia.
  - apply N.eqb_eq in H. subst c. repeat split; reflexivity.
Qed.

Lemma parse_value_number (f : nat) (s l rest : jstr) :
  valid_number l = true -> head_ok stop_unit rest = true ->
  skip_ws s = l ++ rest ->
  parse_value (S f) s = Some (JNum l, rest).
Proof.
  intros Hl Hrest Hs. destruct (valid_number_spec l Hl) as (Hne & Hhd & Hext).
  cbn [parse_value]. rewrite Hs.
  destruct l as [|c l]; [congruence|]. simpl in Hhd.
  destruct (number_start_facts c Hhd) as (H1 & H2 & H3 & H4 & H5 & H6).
  change ((c :: l) ++ rest) with (c :: (l ++ rest)). cbv iota.
  rewrite H1, H2, H3.
  change (startsWith (c :: l ++ rest) (lit "true"))
    with ((116 =? c) && startsWith (l ++ rest) [114; 117; 101]).
  change (startsWith (c :: l ++ rest) (lit "false"))
    with ((102 =? c) && startsWith (l ++ rest) [97; 108; 115; 101]).
  change (startsWith (c :: l ++ rest) (lit "null"))
    with ((110 =? c) && startsWith (l ++ rest) [117; 108; 108]).
  rewrite H4, H5, H6. cbn [andb].
  change (c :: l ++ rest) with ((c :: l) ++ rest).
  now rewrite (Hext rest Hrest).
Qed.

Lemma parse_value_string (f : nat) (s str rest : jstr) :
  skip_ws s = quote str ++ rest ->
  parse_value (S f) s = Some (JStr str, rest).
Proof.
  intros Hs. cbn [parse_value]. rewrite Hs. unfold quote.
  change ((34 :: quote_body str ++ [34]) ++ rest)
    with (34 :: ((quote_body str ++ [34]) ++ rest)).
  cbv iota. change (34 =? 123) with false. change (34 =? 91) with false.
  change (34 =? 34) with true. cbv iota.
  rewrite <- app_assoc. simpl app. now rewrite parse_chars_quote.
Qed.

Lemma skip_ws_serialize (gap : bool) (d : nat) (v : json) (tl : jstr) :
  printable v = true ->
  skip_ws (serialize gap d v ++ tl) = serialize gap d v ++ tl.
Proof.
  intros H. destruct (serialize_start gap d v H) as (c & t & -> & Hc).
  now apply skip_ws_start.
Qed.

Lemma parse_member_item (pv : jstr -> option (json * jstr)) (gap : bool)
    (d : nat) (k : jstr) (x y : json) (tl s : jstr) :
  (forall s3, skip_ws s3 = serialize gap (S d) x ++ tl -> pv s3 = Some (y, tl)) ->
  printable x = true ->
  skip_ws s = item gap d (k, x) ++ tl ->
  parse_member pv s = Some ((k, y), tl).
Proof.
  intros Hpv Hx Hs. unfold parse_member. rewrite Hs.
  unfold item, quote. cbn [fst snd].
  change ((34 :: quote_body k ++ [34]) ++ colon gap ++ serialize gap (S d) x)
    with (34 :: ((quote_body k ++ [34]) ++ colon gap ++ serialize gap (S d) x)).
  cbn [app]. change (34 =? 34) with true. cbv iota.
  rewrite <- !app_assoc. cbn [app]. rewrite parse_chars_quote.
  destruct gap; cbn [colon app skip_ws]; change (is_ws 58) with false; cbv iota;
    change (58 =? 58) with true; cbv iota.
  - rewrite (Hpv (32 :: serialize true (S d) x ++ tl)); [reflexivity|].
    change (skip_ws (32 :: ?t)) with (skip_ws t).
    now apply skip_ws_serialize.
  - rewrite (Hpv (serialize false (S d) x ++ tl)); [reflexivity|].
    now apply skip_ws_serialize.
Qed.

Lemma item_start (gap : bool) (d : nat) (kv : jstr * json) (tl : jstr) :
  exists t, item gap d kv ++ tl = 34 :: t.
Proof. unfold item, quote. eexists. reflexivity. Qed.

(** *** Reading back *)

Lemma tail_elems_nil (gap : bool) (d : nat) (rest : jstr) :
  tail_elems gap d [] ++ rest = newline gap d ++ 93 :: rest.
Proof.
  unfold tail_elems. cbn [map List.concat app]. now rewrite <- app_assoc.
Qed.

Lemma tail_elems_cons (gap : bool) (d : nat) (e : json) (l : list json)
    (rest : jstr) :
  tail_elems gap d (e :: l) ++ rest
  = 44 :: newline gap (S d) ++ serialize gap (S d) e
      ++ tail_elems gap d l ++ rest.
Proof.
  unfold tail_elems. cbn [map List.concat]. now rewrite <- !app_assoc.
Qed.

Lemma tail_members_nil (gap : bool) (d : nat) (rest : jstr) :
  tail_members gap d [] ++ rest = newline gap d ++ 125 :: rest.
Proof.
  unfold tail_members. cbn [map List.concat app]. now rewrite <- app_assoc.
Qed.

Lemma tail_members_cons (gap : bool) (d : nat) (kv : jstr * json)
    (ps : list (jstr * json)) (rest : jstr) :
  tail_members gap d (kv :: ps) ++ rest
  = 44 :: newline gap (S d) ++ item gap d kv ++ tail_members gap d ps ++ rest.
Proof.
  unfold tail_members. cbn [map List.concat]. now rewrite <- !app_assoc.
Qed.

Lemma normal_keys_reread (ps : list (jstr * json)) :
  normal_keys (map (fun kv => (fst kv, reread (snd kv))) ps) = normal_keys ps.
Proof. unfold normal_keys. now rewrite map_map. Qed.

Lemma parse_null (f : nat) (s rest : jstr) :
  skip_ws s = lit "null" ++ rest -> parse_value (S f) s = Some (JNull, rest).
Proof. intros Hs. cbn [parse_value]. rewrite Hs. simpl. reflexivity. Qed.

(** The number printed for [l] is read back as [reread (JNum l)]. *)
Lemma parse_value_printed (f : nat) (s l rest : jstr) :
  printable_number l = true -> head_ok stop_unit rest = true ->
  skip_ws s = number_json l ++ rest ->
  parse_value (S f) s = Some (reread (JNum l), rest).
Proof.
  intros Hl Hrest Hs. cbn [reread]. unfold printable_number in Hl.
  destruct (prints_null l) eqn:E.
  - unfold prints_null in E. apply jstr_eqb_eq in E. rewrite E in Hs.
    now apply parse_null.
  - simpl in Hl. now apply parse_value_number.
Qed.

Lemma read_back (gap : bool) (f : nat) :
  (forall v d rest s,
      (size v <= f)%nat -> wf v = true -> printable v = true ->
      head_ok stop_unit rest = true ->
      skip_ws s = serialize gap d v ++ rest ->
      parse_value f s = Some (reread v, rest))
  /\ (forall l d rest,
        (S (list_sum (map size l)) <= f)%nat -> forallb wf l = true ->
        forallb printable l = true ->
        parse_elems f (tail_elems gap d l ++ rest) = Some (map reread l, rest))
  /\ (forall ps d rest,
        (S (list_sum (map (fun kv => size (snd kv)) ps)) <= f)%nat ->
        forallb (fun kv => wf (snd kv)) ps = true ->
        forallb (fun kv => printable (snd kv)) ps = true ->
        parse_members f (tail_members gap d ps ++ rest)
        = Some (map (fun kv => (fst kv, reread (snd kv))) ps, rest)).
Proof.
  induction f as [|f (IHv & IHe & IHm)].
  { repeat split; intros; try lia.
    pose proof (size_pos v). lia. }
  repeat split.
  - intros v d rest s Hsz Hwf Hpr Hrest Hs.
    destruct v as [|[|]|l|str|[|e l]|[|[k x] ps]].
    + cbn [parse_value]. rewrite Hs. simpl. reflexivity.
    + cbn [parse_value]. rewrite Hs. simpl. reflexivity.
    + cbn [parse_value]. rewrite Hs. simpl. reflexivity.
    + now apply parse_value_printed.
    + now apply parse_value_string.
    + cbn [parse_value]. rewrite Hs. simpl. reflexivity.
    + rewrite serialize_arr in Hs. cbn [parse_value]. rewrite Hs.
      cbn [app]. change (91 =? 123) with false. change (91 =? 91) with true.
      cbv iota. rewrite <- !app_assoc, skip_ws_newline.
      simpl in Hwf. apply andb_prop in Hwf as [He Hl].
      simpl in Hpr. apply andb_prop in Hpr as [Pe Pl].
      rewrite (skip_ws_serialize gap (S d) e _ Pe).
      destruct (serialize_start gap (S d) e Pe) as (c & t & Ec & Hc).
      destruct (value_start_facts c Hc) as (_ & H93 & _).
      assert (Et : serialize gap (S d) e ++ tail_elems gap d l ++ rest
                   = c :: t ++ tail_elems gap d l ++ rest)
        by (now rewrite Ec).
      rewrite Et. cbv iota. rewrite H93.
      simpl in Hsz. pose proof (size_pos e).
      rewrite (IHv e (S d) (tail_elems gap d l ++ rest)
                 (newline gap (S d) ++ c :: t ++ tail_elems gap d l ++ rest));
        [|lia|exact He|exact Pe|apply tail_elems_stop
         |rewrite skip_ws_newline, <- Et; now apply skip_ws_serialize].
      rewrite (IHe l d rest); [reflexivity|lia|exact Hl|exact Pl].
    + cbn [parse_value]. rewrite Hs. simpl. reflexivity.
    + rewrite serialize_obj in Hs. cbn [parse_value]. rewrite Hs.
      cbn [app]. change (123 =? 123) with true.
      cbv iota. rewrite <- !app_assoc, skip_ws_newline.
      destruct (item_start gap d (k, x) (tail_members gap d ps ++ rest))
        as [t Et].
      rewrite Et. change (skip_ws (34 :: t)) with (34 :: t). cbv iota.
      change (34 =? 125) with false. cbv iota.
      simpl in Hwf. apply andb_prop in Hwf as [Hn Hvals].
      apply andb_prop in Hvals as [Hx Hps].
      simpl in Hpr. apply andb_prop in Hpr as [Px Pps].
      simpl in Hsz. pose proof (size_pos x).
      rewrite (parse_member_item (parse_value f) gap d k x (reread x)
                 (tail_members gap d ps ++ rest)).
      * rewrite (IHm ps d rest); [|lia|exact Hps|exact Pps].
        cbn [reread map fst snd].
        rewrite (build_object_normal
                   ((k, reread x) :: map (fun kv => (fst kv, reread (snd kv))) ps));
          [reflexivity|].
        change ((k, reread x) :: map (fun kv => (fst kv, reread (snd kv))) ps)
          with (map (fun kv => (fst kv, reread (snd kv))) ((k, x) :: ps)).
        now rewrite normal_keys_reread.
      * intros s3 Hs3. apply (IHv x (S d)); try assumption; [lia|].
        apply tail_members_stop.
      * exact Px.
      * rewrite skip_ws_newline, Et. reflexivity.
  - intros l d rest Hsz Hwf Hpr. cbn [parse_elems].
    destruct l as [|e l].
    + rewrite tail_elems_nil, skip_ws_newline. reflexivity.
    + rewrite tail_elems_cons.
      cbn [skip_ws]. change (is_ws 44) with false. cbv iota.
      change (44 =? 93) with false. change (44 =? 44) with true. cbv iota.
      simpl in Hwf. apply andb_prop in Hwf as [He Hl].
      simpl in Hpr. apply andb_prop in Hpr as [Pe Pl].
      simpl in Hsz. pose proof (size_pos e).
      rewrite (IHv e (S d) (tail_elems gap d l ++ rest));
        [|lia|exact He|exact Pe|apply tail_elems_stop
         |rewrite skip_ws_newline; now apply skip_ws_serialize].
      rewrite (IHe l d rest); [reflexivity|lia|exact Hl|exact Pl].
  - intros ps d rest Hsz Hwf Hpr. cbn [parse_members].
    destruct ps as [|[k x] ps].
    + rewrite tail_members_nil, skip_ws_newline. reflexivity.
    + rewrite tail_members_cons.
      cbn [skip_ws]. change (is_ws 44) with false. cbv iota.
      change (44 =? 125) with false. change (44 =? 44) with true. cbv iota.
      simpl in Hwf. apply andb_prop in Hwf as [Hx Hps].
      simpl in Hpr. apply andb_prop in Hpr as [Px Pps].
      simpl in Hsz. pose proof (size_pos x).
      destruct (item_start gap d (k, x) (tail_members gap d ps ++ rest))
        as [t Et].
      rewrite (parse_member_item (parse_value f) gap d k x (reread x)
                 (tail_members gap d ps ++ rest)).
      * rewrite (IHm ps d rest); [reflexivity|lia|exact Hps|exact Pps].
      * intros s3 Hs3. apply (IHv x (S d)); try assumption; [lia|].
        apply tail_members_stop.
      * exact Px.
      * rewrite skip_ws_newline, Et. reflexivity.
Qed.

(** *** Fuel: a value has no more nodes than its text has code units *)

Lemma json_nested_ind (P : json -> Prop) :
  P JNull -> (forall b, P (JBool b)) -> (forall l, P (JNum l)) ->
  (forall s, P (JStr s)) ->
  (forall l, Forall P l -> P (JArr l)) ->
  (forall ps, Forall (fun kv => P (snd kv)) ps -> P (JObj ps)) ->
  forall j, P j.
Proof.
  intros HNull HBool HNum HStr HArr HObj.
  fix IH 1. intros [|b|l|s|l|ps].
  - exact HNull.
  - apply HBool.
  - apply HNum.
  - apply HStr.
  - apply HArr. induction l as [|x l IHl]; constructor; [apply IH|exact IHl].
  - apply HObj. induction ps as [|[k x] ps IHps]; constructor;
      [apply IH|exact IHps].
Qed.

Lemma tail_elems_length (gap : bool) (d : nat) (l : list json) :
  Forall (fun v => forall d', (size v <= List.length (serialize gap d' v))%nat) l ->
  (list_sum (map size l) <= List.length (tail_elems gap d l))%nat.
Proof.
  induction 1 as [|x l Hx _ IH].
  - simpl. lia.
  - rewrite <- (app_nil_r (tail_elems gap d (x :: l))), tail_elems_cons.
    rewrite app_nil_r. cbn [List.length map list_sum fold_right]. rewrite !length_app.
    specialize (Hx (S d)). unfold list_sum in *. cbn [fold_right]. lia.
Qed.

Lemma tail_members_length (gap : bool) (d : nat) (ps : list (jstr * json)) :
  Forall (fun kv => forall d', (size (snd kv)
                                <= List.length (serialize gap d' (snd kv)))%nat) ps ->
  (list_sum (map (fun kv => size (snd kv)) ps)
   <= List.length (tail_members gap d ps))%nat.
Proof.
  induction 1 as [|x ps Hx _ IH].
  - simpl. lia.
  - rewrite <- (app_nil_r (tail_members gap d (x :: ps))), tail_members_cons.
    rewrite app_nil_r. cbn [List.length map list_sum fold_right]. unfold item.
    rewrite !length_app. specialize (Hx (S d)).
    unfold list_sum in *. cbn [fold_right]. lia.
Qed.

Lemma Forall_wf (A : Type) (w : A -> bool) (P : A -> Prop) (l : list A) :
  forallb w l = true -> Forall (fun x => w x = true -> P x) l -> Forall P l.
Proof.
  intros Hw H. induction H as [|x l Hx _ IH]; constructor;
    simpl in Hw; apply andb_prop in Hw as [H1 H2]; auto.
Qed.

Lemma size_le_length (gap : bool) (v : json) :
  printable v = true -> forall d, (size v <= List.length (serialize gap d v))%nat.
Proof.
  induction v as [|b|l|s|l IH|ps IH] using json_nested_ind; intros Hwf d.
  - simpl. lia.
  - destruct b; simpl; lia.
  - destruct (serialize_start gap d (JNum l) Hwf) as (c & t & -> & _).
    simpl. lia.
  - simpl. lia.
  - destruct l as [|e l]; [simpl; lia|].
    simpl in Hwf. apply andb_prop in Hwf as [He Hl].
    inversion IH as [|? ? IHe IHl]; subst.
    rewrite serialize_arr. cbn [List.length map list_sum fold_right size].
    rewrite !length_app.
    pose proof (IHe He (S d)).
    pose proof (tail_elems_length gap d l (Forall_wf _ _ _ _ Hl IHl)).
    unfold list_sum in *. cbn [fold_right]. lia.
  - destruct ps as [|[k x] ps]; [simpl; lia|].
    simpl in Hwf. apply andb_prop in Hwf as [Hx Hps].
    inversion IH as [|? ? IHx IHps]; subst.
    rewrite serialize_obj. cbn [List.length map list_sum fold_right size snd].
    unfold item. rewrite !length_app. cbn [snd].
    pose proof (IHx Hx (S d)) as Hsx. cbn [snd] in Hsx.
    pose proof (tail_members_length gap d ps
                  (Forall_wf _ (fun kv => printable (snd kv)) _ _ Hps IHps)).
    unfold list_sum in *. cbn [fold_right]. lia.
Qed.

(** [JSON.parse] reads a well-formed value back from its serialisation,
    with the two-space gap or without: the value with its numbers as they
    were printed. *)
Lemma JSON_parse_serialize (gap : bool) (v : json) :
  wf v = true -> printable v = true ->
  JSON_parse (serialize gap 0 v) = Some (reread v).
Proof.
  intros Hwf Hpr. unfold JSON_parse.
  rewrite (proj1 (read_back gap _) v 0%nat [] (serialize gap 0 v)).
  - reflexivity.
  - pose proof (size_le_length gap v Hpr 0%nat). lia.
  - exact Hwf.
  - exact Hpr.
  - reflexivity.
  - rewrite app_nil_r. rewrite <- (app_nil_r (serialize gap 0 v)) at 1.
    rewrite skip_ws_serialize by exact Hpr. now rewrite app_nil_r.
Qed.

(** The numbers of a well-formed value are written as numbers of the JSON
    grammar or as [null]: the value can be read back. *)
Lemma wf_printable (v : json) : wf v = true -> printable v = true.
Proof.
  induction v as [|b|l|s|l IH|ps IH] using json_nested_ind; intros Hwf;
    try reflexivity.
  - simpl in *. unfold printable_number, prints_null.
    destruct (number_json_grammar l Hwf) as [-> | ->];
      [reflexivity|apply orb_true_r].
  - simpl in *. induction IH as [|x l Hx _ IHl]; [reflexivity|].
    simpl in *. apply andb_prop in Hwf as [H1 H2].
    rewrite (Hx H1), (IHl H2). reflexivity.
  - simpl in *. apply andb_prop in Hwf as [_ Hwf].
    induction IH as [|x l Hx _ IHl]; [reflexivity|].
    simpl in *. apply andb_prop in Hwf as [H1 H2].
    rewrite (Hx H1), (IHl H2). reflexivity.
Qed.

Lemma prints_itself_reread (v : json) :
  wf v = true -> prints_itself v = true ->
  printable v = true /\ reread v = v.
Proof.
  induction v as [|b|l|s|l IH|ps IH] using json_nested_ind; intros Hwf Hp;
    try (split; reflexivity).
  - simpl in *. apply jstr_eqb_eq in Hp.
    unfold printable_number, prints_null. rewrite Hp, Hwf.
    destruct (jstr_eqb l (lit "null")) eqn:E.
    + apply jstr_eqb_eq in E. subst l. discriminate Hwf.
    + split; reflexivity.
  - simpl in *.
    assert (G : forallb printable l = true /\ map reread l = l).
    { induction IH as [|x l Hx _ IHl]; [split; reflexivity|].
      simpl in *. apply andb_prop in Hwf as [H1 H2].
      apply andb_prop in Hp as [P1 P2].
      destruct (Hx H1 P1) as [-> ->]. destruct (IHl H2 P2) as [-> ->].
      split; reflexivity. }
    destruct G as [-> ->]. split; reflexivity.
  - simpl in *. apply andb_prop in Hwf as [_ Hwf].
    assert (G : forallb (fun kv => printable (snd kv)) ps = true
                /\ map (fun kv => (fst kv, reread (snd kv))) ps = ps).
    { induction IH as [|[k x] l Hx _ IHl]; [split; reflexivity|].
      simpl in *. apply andb_prop in Hwf as [H1 H2].
      apply andb_prop in Hp as [P1 P2].
      destruct (Hx H1 P1) as [-> ->]. destruct (IHl H2 P2) as [-> ->].
      split; reflexivity. }
    destruct G as [-> ->]. split; reflexivity.
Qed.

(** A well-formed value whose numbers are printed digit for digit is read
    back as it is, with the two-space gap or without. *)
Lemma JSON_parse_serialize_exact (gap : bool) (v : json) :
  wf v = true -> prints_itself v = true ->
  JSON_parse (serialize gap 0 v) = Some v.
Proof.
  intros Hwf Hp. destruct (prints_itself_reread v Hwf Hp) as [Hpr Hre].
  rewrite JSON_parse_serialize by assumption. now rewrite Hre.
Qed.


(** *** Fuel above the length of the text is never exhausted *)

Lemma skip_ws_length (s : jstr) : (List.length (skip_ws s) <= List.length s)%nat.
Proof.
  induction s as [|c s IH]; simpl; [lia|].
  destruct (is_ws c); simpl; lia.
Qed.

Lemma skip_ws_cons_length (s : jstr) (c : N) (s' : jstr) :
  skip_ws s = c :: s' -> (List.length s' < List.length s)%nat.
Proof.
  intros H. pose proof (skip_ws_length s) as L. rewrite H in L. simpl in L. lia.
Qed.

Lemma parse_chars_length (s : jstr) :
  forall str r, parse_chars s = Some (str, r) ->
  (List.length r < List.length s)%nat.
Proof.
  assert (G : forall n s, (List.length s <= n)%nat ->
              forall str r, parse_chars s = Some (str, r) ->
              (List.length r < List.length s)%nat).
  { induction n as [|n IH]; intros [|c t] Hn str r H; simpl in Hn;
      try discriminate; try lia.
    cbn [parse_chars] in H.
    destruct (c =? 34); [injection H as <- <-; simpl; lia|].
    destruct (c =? 92).
    - destruct t as [|e t2]; [discriminate|].
      destruct (e =? 117).
      + destruct t2 as [|h1 [|h2 [|h3 [|h4 s3]]]]; try discriminate.
        destruct (hex4 h1 h2 h3 h4); [|discriminate].
        destruct (parse_chars s3) as [[str' r']|] eqn:E; [|discriminate].
        injection H as <- <-.
        assert (List.length r' < List.length s3)%nat
          by (apply (IH s3) with (str := str'); [simpl in Hn; lia|exact E]).
        simpl. lia.
      + destruct (unescape e); [|discriminate].
        destruct (parse_chars t2) as [[str' r']|] eqn:E; [|discriminate].
        injection H as <- <-.
        assert (List.length r' < List.length t2)%nat
          by (apply (IH t2) with (str := str'); [simpl in Hn; lia|exact E]).
        simpl. lia.
    - destruct (c <? 32); [discriminate|].
      destruct (parse_chars t) as [[str' r']|] eqn:E; [|discriminate].
      injection H as <- <-.
      assert (List.length r' < List.length t)%nat
        by (apply (IH t) with (str := str'); [lia|exact E]).
      simpl. lia. }
  intros str r. now apply (G (List.length s)).
Qed.

Lemma startsWith_skipn (p s : jstr) :
  startsWith s p = true ->
  (List.length (skipn (List.length p) s) + List.length p = List.length s)%nat.
Proof.
  revert s. induction p as [|x p IH]; intros s H; simpl.
  - lia.
  - destruct s as [|y s]; simpl in H; [discriminate|].
    apply andb_prop in H as [_ H]. simpl. rewrite <- (IH s H). lia.
Qed.

Lemma parse_member_length (pv : jstr -> option (json * jstr)) (s : jstr)
    (kv : jstr * json) (r : jstr) :
  (forall s3 v r3, pv s3 = Some (v, r3) ->
                   (List.length r3 < List.length s3)%nat) ->
  parse_member pv s = Some (kv, r) -> (List.length r < List.length s)%nat.
Proof.
  intros Hpv H. unfold parse_member in H.
  destruct (skip_ws s) as [|c s1] eqn:E1; [discriminate|].
  destruct (c =? 34); [|discriminate].
  destruct (parse_chars s1) as [[k s2]|] eqn:E2; [|discriminate].
  destruct (skip_ws s2) as [|c2 s3] eqn:E3; [discriminate|].
  destruct (c2 =? 58); [|discriminate].
  destruct (pv s3) as [[v r3]|] eqn:E4; [|discriminate].
  injection H as <- <-.
  pose proof (skip_ws_cons_length _ _ _ E1).
  pose proof (parse_chars_length _ _ _ E2).
  pose proof (skip_ws_cons_length _ _ _ E3).
  pose proof (Hpv _ _ _ E4). lia.
Qed.

Lemma parse_consumes (f : nat) :
  (forall s v r, parse_value f s = Some (v, r) ->
                 (List.length r < List.length s)%nat)
  /\ (forall s vs r, parse_elems f s = Some (vs, r) ->
                     (List.length r < List.length s)%nat)
  /\ (forall s kvs r, parse_members f s = Some (kvs, r) ->
                      (List.length r < List.length s)%nat).
Proof.
  induction f as [|f (IHv & IHe & IHm)]; [repeat split; discriminate|].
  repeat split.
  - intros s v r H. cbn [parse_value] in H.
    destruct (skip_ws s) as [|c s'] eqn:Es; [discriminate|].
    pose proof (skip_ws_cons_length _ _ _ Es) as Ls.
    destruct (c =? 123).
    { destruct (skip_ws s') as [|c2 s2] eqn:E2; [discriminate|].
      pose proof (skip_ws_cons_length _ _ _ E2).
      destruct (c2 =? 125); [injection H as <- <-; lia|].
      destruct (parse_member (parse_value f) s') as [[kv r1]|] eqn:Em;
        [|discriminate].
      destruct (parse_members f r1) as [[kvs r2]|] eqn:Ems; [|discriminate].
      injection H as <- <-.
      pose proof (parse_member_length _ _ _ _ IHv Em).
      pose proof (IHm _ _ _ Ems). lia. }
    destruct (c =? 91).
    { destruct (skip_ws s') as [|c2 s2] eqn:E2; [discriminate|].
      pose proof (skip_ws_cons_length _ _ _ E2).
      destruct (c2 =? 93); [injection H as <- <-; lia|].
      destruct (parse_value f s') as [[v1 r1]|] eqn:Ev; [|discriminate].
      destruct (parse_elems f r1) as [[vs r2]|] eqn:Evs; [|discriminate].
      injection H as <- <-.
      pose proof (IHv _ _ _ Ev). pose proof (IHe _ _ _ Evs). lia. }
    destruct (c =? 34).
    { destruct (parse_chars s') as [[str r1]|] eqn:Ec; [|discriminate].
      injection H as <- <-. pose proof (parse_chars_length _ _ _ Ec). lia. }
    destruct (startsWith (c :: s') (lit "true")) eqn:E1.
    { injection H as <- <-. pose proof (startsWith_skipn _ _ E1) as L.
      change (List.length (lit "true")) with 4%nat in L. simpl in L |- *. lia. }
    destruct (startsWith (c :: s') (lit "false")) eqn:E2.
    { injection H as <- <-. pose proof (startsWith_skipn _ _ E2) as L.
      change (List.length (lit "false")) with 5%nat in L. simpl in L |- *. lia. }
    destruct (startsWith (c :: s') (lit "null")) eqn:E3.
    { injection H as <- <-. pose proof (startsWith_skipn _ _ E3) as L.
      change (List.length (lit "null")) with 4%nat in L. simpl in L |- *. lia. }
    destruct (scan_number (c :: s')) as [[l r1]|] eqn:En; [|discriminate].
    injection H as <- <-.
    destruct (scan_number_spec _ _ _ En) as (Eq & Hne & _).
    assert (L : List.length (c :: s') = List.length (l ++ r1)) by now rewrite Eq.
    rewrite length_app in L. simpl in L.
    destruct l; [congruence|simpl in L; lia].
  - intros s vs r H. cbn [parse_elems] in H.
    destruct (skip_ws s) as [|c s1] eqn:Es; [discriminate|].
    pose proof (skip_ws_cons_length _ _ _ Es) as Ls.
    destruct (c =? 93); [injection H as <- <-; lia|].
    destruct (c =? 44); [|discriminate].
    destruct (parse_value f s1) as [[v1 r1]|] eqn:Ev; [|discriminate].
    destruct (parse_elems f r1) as [[vs1 r2]|] eqn:Evs; [|discriminate].
    injection H as <- <-.
    pose proof (IHv _ _ _ Ev). pose proof (IHe _ _ _ Evs). lia.
  - intros s kvs r H. cbn [parse_members] in H.
    destruct (skip_ws s) as [|c s1] eqn:Es; [discriminate|].
    pose proof (skip_ws_cons_length _ _ _ Es) as Ls.
    destruct (c =? 125); [injection H as <- <-; lia|].
    destruct (c =? 44); [|discriminate].
    destruct (parse_member (parse_value f) s1) as [[kv r1]|] eqn:Em;
      [|discriminate].
    destruct (parse_members f r1) as [[kvs1 r2]|] eqn:Ems; [|discriminate].
    injection H as <- <-.
    pose proof (parse_member_length _ _ _ _ IHv Em).
    pose proof (IHm _ _ _ Ems). lia.
Qed.

Lemma parse_member_ext (pv pv' : jstr -> option (json * jstr)) (s : jstr) :
  (forall s3, (List.length s3 < List.length s)%nat -> pv s3 = pv' s3) ->
  parse_member pv s = parse_member pv' s.
Proof.
  intros H. unfold parse_member.
  destruct (skip_ws s) as [|c s1] eqn:E1; [reflexivity|].
  destruct (c =? 34); [|reflexivity].
  destruct (parse_chars s1) as [[k s2]|] eqn:E2; [|reflexivity].
  destruct (skip_ws s2) as [|c2 s3] eqn:E3; [reflexivity|].
  destruct (c2 =? 58); [|reflexivity].
  pose proof (skip_ws_cons_length _ _ _ E1).
  pose proof (parse_chars_length _ _ _ E2).
  pose proof (skip_ws_cons_length _ _ _ E3).
  rewrite H by lia. reflexivity.
Qed.

(** With fuel above the length of the text the parsers do not depend on the
    fuel: [None] from [JSON_parse] is a syntax error, never exhaustion. *)
Lemma parse_value_fuel (f : nat) :
  forall f',
  (forall s, (List.length s < f)%nat -> (List.length s < f')%nat ->
             parse_value f s = parse_value f' s)
  /\ (forall s, (List.length s < f)%nat -> (List.length s < f')%nat ->
                parse_elems f s = parse_elems f' s)
  /\ (forall s, (List.length s < f)%nat -> (List.length s < f')%nat ->
                parse_members f s = parse_members f' s).
Proof.
  induction f as [|f IH]; intros f'; [repeat split; intros; lia|].
  destruct f' as [|f']; [repeat split; intros; lia|].
  destruct (IH f') as (IHv & IHe & IHm).
  destruct (parse_consumes f') as (Cv & Ce & Cm).
  repeat split; intros s Hf Hf'.
  - cbn [parse_value].
    destruct (skip_ws s) as [|c s'] eqn:Es; [reflexivity|].
    pose proof (skip_ws_cons_length _ _ _ Es) as Ls.
    destruct (c =? 123).
    { destruct (skip_ws s') as [|c2 s2]; [reflexivity|].
      destruct (c2 =? 125); [reflexivity|].
      rewrite (parse_member_ext (parse_value f) (parse_value f') s')
        by (intros; apply IHv; lia).
      destruct (parse_member (parse_value f') s') as [[kv r1]|] eqn:Em;
        [|reflexivity].
      pose proof (parse_member_length _ _ _ _ Cv Em).
      rewrite (IHm r1) by lia. reflexivity. }
    destruct (c =? 91); [|reflexivity].
    destruct (skip_ws s') as [|c2 s2]; [reflexivity|].
    destruct (c2 =? 93); [reflexivity|].
    rewrite (IHv s') by lia.
    destruct (parse_value f' s') as [[v1 r1]|] eqn:Ev; [|reflexivity].
    pose proof (Cv _ _ _ Ev). rewrite (IHe r1) by lia. reflexivity.
  - cbn [parse_elems].
    destruct (skip_ws s) as [|c s1] eqn:Es; [reflexivity|].
    pose proof (skip_ws_cons_length _ _ _ Es) as Ls.
    destruct (c =? 93); [reflexivity|].
    destruct (c =? 44); [|reflexivity].
    rewrite (IHv s1) by lia.
    destruct (parse_value f' s1) as [[v1 r1]|] eqn:Ev; [|reflexivity].
    pose proof (Cv _ _ _ Ev). rewrite (IHe r1) by lia. reflexivity.
  - cbn [parse_members].
    destruct (skip_ws s) as [|c s1] eqn:Es; [reflexivity|].
    pose proof (skip_ws_cons_length _ _ _ Es) as Ls.
    destruct (c =? 125); [reflexivity|].
    destruct (c =? 44); [|reflexivity].
    rewrite (parse_member_ext (parse_value f) (parse_value f') s1)
      by (intros; apply IHv; lia).
    destruct (parse_member (parse_value f') s1) as [[kv r1]|] eqn:Em;
      [|reflexivity].
    pose proof (parse_member_length _ _ _ _ Cv Em).
    rewrite (IHm r1) by lia. reflexivity.
Qed.

Lemma JSON_parse_fuel (text : jstr) (f : nat) :
  (List.length text < f)%nat ->
  parse_value f text = parse_value (S (List.length text)) text.
Proof. intros H. apply parse_value_fuel; lia. Qed.

(** ** The structured step *)


(** ** The texts the adapters return *)

Lemma get_object (v : value) (name : string) (j : json) :
  get v name = Some j -> exists ps, v = Some (JObj ps).
Proof.
  destruct v as [[| | | | |ps]|]; simpl; try discriminate. eauto.
Qed.

Lemma get0_object (v : value) (ps : list (jstr * json)) :
  get0 v = Some (JObj ps) -> truthy v = true.
Proof.
  destruct v as [[| | |[|c s]|[|x l]|qs]|]; simpl; try discriminate;
    reflexivity.
Qed.

Lemma get0_some (v : value) (j : json) :
  get0 v = Some j -> exists y, v = Some y.
Proof. destruct v; simpl; [eauto|discriminate]. Qed.

Lemma first_item_truthy (list : value) (name1 name2 : string) (j : json) :
  get (get (get0 list) name1) name2 = Some j -> truthy list = true.
Proof.
  intros H. apply get_object in H as [ps H]. apply get_object in H as [qs H].
  now apply get0_object in H.
Qed.

Lemma js_and_field (data : json) (name : string) :
  truthy (get (Some data) name) = true ->
  truthy (js_and (Some data) (get (Some data) name)) = true.
Proof.
  intros H. destruct data as [| | | | |ps]; try discriminate H.
  unfold js_and. change (truthy (Some (JObj ps))) with true. exact H.
Qed.

(** A result of an adapter that the loop of [POST] does not classify by its
    payload has a text that is [undefined] or a string: there
    [r.text.length] is the length of a string. *)
Lemma adapter_text_shape (env : Env) (up : Upstream) (prompt : value)
    (w : World) (r : ProviderResult) :
  r = fst (callGemini env up prompt w) \/ r = fst (callOpenAI env up prompt w) ->
  truthy (js_and (raw r) (get (raw r) "candidates")) = true
  \/ truthy (js_and (raw r) (get (raw r) "choices")) = true
  \/ text r = None
  \/ exists s, text r = Some (JStr s).
Proof.
  intros [-> | ->].
  - unfold callGemini, axios_post.
    destruct (up (sent w) _) as [data|rd msg]; simpl; [|auto].
    match goal with |- context [if truthy ?c then _ else _] =>
      destruct (truthy c) eqn:Hc end; simpl.
    + left. apply js_and_field.
      match type of Hc with truthy ?c = true =>
        destruct c as [j|] eqn:E; [|discriminate] end.
      apply get_object in E as [ps E]. apply get0_some in E as [y E].
      apply get_object in E as [qs E]. apply get_object in E as [rs E].
      now apply get0_object in E.
    + right. right. right. eauto.
  - unfold callOpenAI, axios_post.
    destruct (negb (env_set (OPENAI_API_KEY env))); simpl; [auto|].
    destruct (up (sent w) _) as [data|rd msg]; simpl; [|auto].
    destruct (first_choice_content data) as [j|] eqn:E; [|auto].
    right. left. apply js_and_field. unfold first_choice_content in E.
    now apply first_item_truthy in E.
Qed.

(** * Further properties *)

(** ** When the merger throws *)

Lemma extractByMarker_or (v : value) (p : Parts) :
  (truthy_non_string v = true
   /\ extractByMarker (js_or v empty_string) p = Throw (TypeError MethodCall v))
  \/ (truthy_non_string v = false
      /\ exists p', extractByMarker (js_or v empty_string) p = Normal p').
Proof.
  unfold truthy_non_string, js_or.
  destruct v as [[|[|]|l|[|c s]|l|ps]|]; simpl;
    try (left; split; reflexivity);
    try (right; split; [reflexivity|eexists; reflexivity]).
  destruct (number_truthy l); simpl;
    [left; split; reflexivity|right; split; [reflexivity|eexists; reflexivity]].
Qed.

(** A value that is falsy or a string is converted to a string, and so is
    what [v || '(no reply)'] gives for it. *)
Lemma ToString_plain (v : value) :
  truthy_non_string v = false ->
  (exists s, ToString_value v = Normal s)
  /\ (exists s, ToString_value (js_or v no_reply) = Normal s).
Proof.
  unfold truthy_non_string, js_or.
  destruct v as [[|[|]|l|[|c s]|l|ps]|]; simpl; try discriminate;
    try (intros _; split; eexists; reflexivity).
  destruct (number_truthy l); simpl; [discriminate|].
  intros _; split; eexists; reflexivity.
Qed.

Lemma longest_wins_returns (g o : value) :
  truthy_non_string g = false -> truthy_non_string o = false ->
  exists m, longest_wins g o = Normal m.
Proof.
  intros Hg Ho. unfold longest_wins.
  destruct (ToString_plain g Hg) as [[sg Eg] [sg' Eg']].
  destruct (ToString_plain o Ho) as [[so Eo] [so' Eo']].
  rewrite Eg', Eo'. cbn [bind].
  destruct (_ <=? _)%nat; [rewrite Eo|rewrite Eg]; eexists; reflexivity.
Qed.

(** The steps after the structured one throw exactly on an argument that is
    truthy and not a string, the first of the two: its [toUpperCase] is
    missing. *)
Lemma marker_step_throws (g o : value) (e : exn) :
  marker_step g o = Throw e <->
  (truthy_non_string g = true /\ e = TypeError MethodCall g)
  \/ (truthy_non_string g = false /\ truthy_non_string o = true
      /\ e = TypeError MethodCall o).
Proof.
  unfold marker_step.
  destruct (extractByMarker_or g no_parts) as [[Hg Eg]|[Hg [p1 Eg]]];
    rewrite Eg, Hg; simpl.
  - split.
    + intros H; injection H as <-; auto.
    + intros [[_ ->]|[H _]]; [reflexivity|discriminate].
  - destruct (extractByMarker_or o p1) as [[Ho Eo]|[Ho [p2 Eo]]];
      rewrite Eo, Ho; simpl.
    + split.
      * intros H; injection H as <-; auto.
      * intros [[H _]|(_ & _ & ->)]; [discriminate|reflexivity].
    + split; [|intros [[H _]|(_ & H & _)]; discriminate].
      destruct (longest_wins_returns g o Hg Ho) as [m Em]. rewrite Em.
      destruct (is_empty (script p2) && is_empty (video p2)
                && is_empty (general p2)); discriminate.
Qed.

Lemma heuristicMerge_throw_kind (g o : value) (e : exn) :
  heuristicMerge g o = Throw e -> exists v, e = TypeError MethodCall v.
Proof.
  unfold heuristicMerge.
  destruct (JSON_parse_value g); [destruct (JSON_parse_value o)|];
    try discriminate; intros H; apply marker_step_throws in H;
    destruct H as [[_ ->]|(_ & _ & ->)]; eauto.
Qed.

(** X1: the merger throws exactly when [JSON.parse] does not return on both
    arguments and one of them is truthy without being a string; what it
    throws is then the TypeError of the call of [toUpperCase] on the first
    such argument.  On strings, and on falsy values, it always returns. *)
Theorem heuristicMerge_throws (g o : value) (e : exn) :
  heuristicMerge g o = Throw e <->
  (JSON_parse_value g = None \/ JSON_parse_value o = None)
  /\ ((truthy_non_string g = true /\ e = TypeError MethodCall g)
      \/ (truthy_non_string g = false /\ truthy_non_string o = true
          /\ e = TypeError MethodCall o)).
Proof.
  unfold heuristicMerge.
  destruct (JSON_parse_value g) as [gj|] eqn:Pg.
  - destruct (JSON_parse_value o) as [oj|] eqn:Po.
    + split; [discriminate|]. intros ([H|H] & _); discriminate.
    + rewrite marker_step_throws. intuition.
  - rewrite marker_step_throws. intuition.
Qed.

(** ** The buckets of the marker step *)

Lemma segment_empty (txt m : jstr) :
  is_empty (segment txt m) = negb (occurs txt m).
Proof.
  unfold segment, occurs, includes.
  destruct (indexOf (toUpperCase txt) m); reflexivity.
Qed.

Lemma extract_all (txt : jstr) (p : Parts) :
  fold_left (extract_marker txt) markers p
  = mkParts (script p ++ segment txt (lit "SCRIPT:"))
            (video p ++ segment txt (lit "VIDEO:"))
            (general p ++ segment txt (lit "ASSETS:")
             ++ segment txt (lit "TRANSCRIPT:")).
Proof.
  assert (S1 : startsWith (lit "SCRIPT:") (lit "SCRIPT") = true) by reflexivity.
  assert (S2 : startsWith (lit "VIDEO:") (lit "SCRIPT") = false) by reflexivity.
  assert (S3 : startsWith (lit "ASSETS:") (lit "SCRIPT") = false) by reflexivity.
  assert (S4 : startsWith (lit "TRANSCRIPT:") (lit "SCRIPT") = false)
    by reflexivity.
  assert (V2 : startsWith (lit "VIDEO:") (lit "VIDEO") = true) by reflexivity.
  assert (V3 : startsWith (lit "ASSETS:") (lit "VIDEO") = false) by reflexivity.
  assert (V4 : startsWith (lit "TRANSCRIPT:") (lit "VIDEO") = false)
    by reflexivity.
  unfold markers. cbn [fold_left]. unfold extract_marker, segment, includes.
  rewrite S1, S2, S3, S4, V2, V3, V4.
  destruct (indexOf (toUpperCase txt) (lit "SCRIPT:"));
    destruct (indexOf (toUpperCase txt) (lit "VIDEO:"));
    destruct (indexOf (toUpperCase txt) (lit "ASSETS:"));
    destruct (indexOf (toUpperCase txt) (lit "TRANSCRIPT:"));
    destruct p as [s v x]; cbn [script video general];
    rewrite ?app_nil_r, <- ?app_assoc; reflexivity.
Qed.

Lemma extract_both (g o : jstr) :
  fold_left (extract_marker o) markers
    (fold_left (extract_marker g) markers no_parts)
  = buckets g o.
Proof.
  rewrite !extract_all. unfold buckets. simpl script. simpl video.
  simpl general. now rewrite <- !app_assoc.
Qed.

Lemma is_empty_app (a b : jstr) : is_empty (a ++ b) = is_empty a && is_empty b.
Proof. destruct a; reflexivity. Qed.

Lemma not_both_parse (g o : jstr) :
  JSON_parse g = None \/ JSON_parse o = None ->
  heuristicMerge (Some (JStr g)) (Some (JStr o))
  = marker_step (Some (JStr g)) (Some (JStr o)).
Proof.
  unfold heuristicMerge, JSON_parse_value. simpl ToString_value. cbv iota.
  intros [H|H]; rewrite H; [reflexivity|now destruct (JSON_parse g)].
Qed.

(** X2: on two reply strings that do not both parse as JSON and in which some
    marker occurs, the merger returns the sectioned text over three buckets
    with a closed form: each bucket holds, for Gemini's reply and then for
    OpenAI's, a line break and the reply sliced from the index at which its
    marker first ends in the upper-cased reply, trimmed ([ASSETS:] before
    [TRANSCRIPT:] in the general bucket).
    A section is present exactly when one of its markers occurs, also when
    nothing follows the marker. *)
Theorem marker_sections (g o : jstr) :
  JSON_parse g = None \/ JSON_parse o = None ->
  any_marker g o = true ->
  heuristicMerge (Some (JStr g)) (Some (JStr o))
  = Normal (sections (buckets g o))
  /\ is_empty (script (buckets g o))
     = negb (occurs g (lit "SCRIPT:") || occurs o (lit "SCRIPT:"))
  /\ is_empty (video (buckets g o))
     = negb (occurs g (lit "VIDEO:") || occurs o (lit "VIDEO:"))
  /\ is_empty (general (buckets g o))
     = negb (occurs g (lit "ASSETS:") || occurs g (lit "TRANSCRIPT:")
             || occurs o (lit "ASSETS:") || occurs o (lit "TRANSCRIPT:")).
Proof.
  intros Hparse Hany.
  assert (Es : is_empty (script (buckets g o))
               = negb (occurs g (lit "SCRIPT:") || occurs o (lit "SCRIPT:"))).
  { unfold buckets. cbn [script]. rewrite is_empty_app, !segment_empty.
    now rewrite negb_orb. }
  assert (Ev : is_empty (video (buckets g o))
               = negb (occurs g (lit "VIDEO:") || occurs o (lit "VIDEO:"))).
  { unfold buckets. cbn [video]. rewrite is_empty_app, !segment_empty.
    now rewrite negb_orb. }
  assert (Eg : is_empty (general (buckets g o))
               = negb (occurs g (lit "ASSETS:") || occurs g (lit "TRANSCRIPT:")
                       || occurs o (lit "ASSETS:")
                       || occurs o (lit "TRANSCRIPT:"))).
  { unfold buckets. cbn [general]. rewrite !is_empty_app, !segment_empty.
    now destruct (occurs g (lit "ASSETS:")), (occurs g (lit "TRANSCRIPT:")),
      (occurs o (lit "ASSETS:")), (occurs o (lit "TRANSCRIPT:")). }
  repeat split; try assumption.
  rewrite (not_both_parse g o Hparse), marker_step_strings. cbv zeta.
  rewrite extract_both, Es, Ev, Eg.
  unfold any_marker, markers in Hany. cbn [existsb] in Hany.
  destruct (occurs g (lit "SCRIPT:")), (occurs o (lit "SCRIPT:")),
    (occurs g (lit "VIDEO:")), (occurs o (lit "VIDEO:")),
    (occurs g (lit "ASSETS:")), (occurs g (lit "TRANSCRIPT:")),
    (occurs o (lit "ASSETS:")), (occurs o (lit "TRANSCRIPT:"));
    try reflexivity; discriminate Hany.
Qed.

(** ** Texts that are carried over verbatim *)

Lemma indexOf_unfold (s m : jstr) :
  indexOf s m
  = if startsWith s m then Some 0%nat
    else match s with
         | [] => None
         | _ :: s' => option_map S (indexOf s' m)
         end.
Proof. destruct s; reflexivity. Qed.

Lemma startsWith_prefix (m b : jstr) : startsWith (m ++ b) m = true.
Proof.
  induction m as [|x m IH]; [reflexivity|]. simpl.
  now rewrite N.eqb_refl, IH.
Qed.

Lemma includes_prefix (m b : jstr) : includes (m ++ b) m = true.
Proof.
  unfold includes. now rewrite indexOf_unfold, startsWith_prefix.
Qed.

Lemma includes_app_r (a s m : jstr) :
  includes s m = true -> includes (a ++ s) m = true.
Proof.
  intros H. induction a as [|c a IH]; [exact H|].
  simpl. now apply includes_cons.
Qed.

Ltac find_part :=
  repeat (first [apply includes_prefix | apply includes_app_r]).

(** X3: in the longest-wins step nothing of the replies is lost: the
    returned text contains Gemini's reply and OpenAI's reply verbatim. *)
Theorem longest_wins_keeps_replies (g o : jstr) :
  no_marker g -> no_marker o ->
  JSON_parse g = None \/ JSON_parse o = None ->
  exists out,
    heuristicMerge (Some (JStr g)) (Some (JStr o)) = Normal out
    /\ includes out g = true /\ includes out o = true.
Proof.
  intros Hg Ho Hp. exists (annotated g o). split; [|split].
  - rewrite (not_both_parse g o Hp), marker_step_strings. cbv zeta.
    rewrite (fold_extract_absent g markers no_parts Hg).
    rewrite (fold_extract_absent o markers no_parts Ho).
    reflexivity.
  - unfold annotated. destruct g as [|c g]; [reflexivity|].
    cbn [is_empty]. find_part.
  - unfold annotated. destruct o as [|c o]; [reflexivity|].
    cbn [is_empty]. find_part.
Qed.

(** X4: the meta-prompt is built exactly when the prompt and the two replies
    convert to strings, and it then contains the three converted texts
    verbatim; when one of the conversions throws, the meta-prompt throws
    what the first of them throws, the prompt first, then Gemini's reply,
    then OpenAI's. *)
Theorem synthPrompt_contains (geminiText openaiText userPrompt : value) :
  (forall sp sg so,
      ToString_value userPrompt = Normal sp ->
      ToString_value geminiText = Normal sg ->
      ToString_value openaiText = Normal so ->
      synthPrompt geminiText openaiText userPrompt
      = Normal (synth_text sp sg so)
      /\ includes (synth_text sp sg so) sp = true
      /\ includes (synth_text sp sg so) sg = true
      /\ includes (synth_text sp sg so) so = true)
  /\ (forall e,
        synthPrompt geminiText openaiText userPrompt = Throw e <->
        ToString_value userPrompt = Throw e
        \/ (exists sp, ToString_value userPrompt = Normal sp)
           /\ (ToString_value geminiText = Throw e
               \/ (exists sg, ToString_value geminiText = Normal sg)
                  /\ ToString_value openaiText = Throw e)).
Proof.
  unfold synthPrompt. split.
  - intros sp sg so -> -> ->. cbn [bind]. unfold synth_text.
    repeat split; find_part.
  - intros e.
    destruct (ToString_value userPrompt) as [sp|e1]; cbn [bind].
    + destruct (ToString_value geminiText) as [sg|e2]; cbn [bind].
      * destruct (ToString_value openaiText) as [so|e3]; cbn [bind].
        -- split; [discriminate|].
           intros [H|[_ [H|[_ H]]]]; discriminate.
        -- split.
           ++ intros H. right. split; [eauto|]. right. split; [eauto|exact H].
           ++ intros [H|[_ [H|[_ H]]]]; try discriminate; exact H.
      * split.
        -- intros H. right. split; [eauto|]. left. exact H.
        -- intros [H|[_ [H|[[sg H'] _]]]]; try discriminate; exact H.
    + split.
      * intros H. left. exact H.
      * intros [H|[[sp H'] _]]; [exact H|discriminate].
Qed.

(** ** The requests a call of the handler sends *)

Lemma callGemini_sent (env : Env) (up : Upstream) (prompt : value) (w : World) :
  sent (snd (callGemini env up prompt w))
  = sent w ++ [GeminiGenerate (GEMINI_API_KEY env) prompt].
Proof.
  unfold callGemini, axios_post.
  destruct (up (sent w) _) as [data|rd msg]; simpl; [|reflexivity].
  match goal with |- context [if ?c then _ else _] => destruct c end;
    reflexivity.
Qed.

Lemma callOpenAI_sent (env : Env) (up : Upstream) (prompt : value) (w : World) :
  sent (snd (callOpenAI env up prompt w))
  = sent w ++ (if env_set (OPENAI_API_KEY env)
               then [OpenAIChat (OPENAI_API_KEY env) prompt] else []).
Proof.
  unfold callOpenAI, axios_post.
  destruct (env_set (OPENAI_API_KEY env)); simpl; [|now rewrite app_nil_r].
  destruct (up (sent w) _); reflexivity.
Qed.

Lemma synthesize_sent (env : Env) (up : Upstream) (g o prompt : value)
    (w : World) :
  sent (snd (synthesizeWithOpenAI env up g o prompt w))
  = sent w ++ (if env_set (OPENAI_API_KEY env)
               then synth_requests env g o prompt
               else []).
Proof.
  unfold synthesizeWithOpenAI, axios_post, synth_requests.
  destruct (env_set (OPENAI_API_KEY env)); simpl; [|now rewrite app_nil_r].
  destruct (synthPrompt g o prompt); simpl; [|now rewrite app_nil_r].
  destruct (up (sent w) _); reflexivity.
Qed.

Lemma dispatch_sent (env : Env) (up : Upstream) (prompt model : value)
    (w : World) :
  sent (snd (dispatch env up prompt model w))
  = sent w
    ++ (if is_str model "both" || is_str model "gemini"
        then [GeminiGenerate (GEMINI_API_KEY env) prompt] else [])
    ++ (if (is_str model "openai"
            || is_str model "both" && env_set (OPENAI_API_KEY env))
           && env_set (OPENAI_API_KEY env)
        then [OpenAIChat (OPENAI_API_KEY env) prompt] else []).
Proof.
  unfold dispatch.
  destruct (is_str model "both" || is_str model "gemini").
  - pose proof (callGemini_sent env up prompt w) as HG.
    destruct (callGemini env up prompt w) as [rG wG]. simpl in HG.
    destruct (is_str model "openai"
              || is_str model "both" && env_set (OPENAI_API_KEY env)).
    + pose proof (callOpenAI_sent env up prompt wG) as HO.
      destruct (callOpenAI env up prompt wG) as [rO wO]. simpl in HO |- *.
      rewrite HO, HG, <- app_assoc. reflexivity.
    + simpl. rewrite ?app_nil_r. exact HG.
  - destruct (is_str model "openai"
              || is_str model "both" && env_set (OPENAI_API_KEY env)).
    + pose proof (callOpenAI_sent env up prompt w) as HO.
      destruct (callOpenAI env up prompt w) as [rO wO]. simpl in HO |- *.
      rewrite HO. reflexivity.
    + simpl. rewrite ?app_nil_r. reflexivity.
Qed.

Lemma fusion_sent (env : Env) (up : Upstream) (prompt : value) (sl : Slots)
    (w : World) :
  sent (snd (fusion env up prompt sl w))
  = sent w
    ++ (if env_set (OPENAI_API_KEY env) && truthy (js_or (gemT sl) (openT sl))
        then synth_requests env (gemT sl) (openT sl) prompt
        else []).
Proof.
  unfold fusion.
  destruct (env_set (OPENAI_API_KEY env)) eqn:Hk; simpl andb.
  - destruct (truthy (js_or (gemT sl) (openT sl))).
    + pose proof (synthesize_sent env up (gemT sl) (openT sl) prompt w) as HS.
      rewrite Hk in HS.
      destruct (synthesizeWithOpenAI env up _ _ _ w) as [[synth|e] w2];
        [|exact HS].
      simpl in HS. destruct (ok synth); simpl; exact HS.
    + simpl. now rewrite app_nil_r.
  - simpl. now rewrite app_nil_r.
Qed.

Lemma POST_sent_throw (env : Env) (up : Upstream) (body : jstr) (w : World) :
  sent (snd (POST env up body w)) = sent (snd (POST_try env up body w)).
Proof.
  unfold POST. destruct (POST_try env up body w) as [[r|e] w1]; reflexivity.
Qed.

Lemma collected_world (env : Env) (up : Upstream) (b : json) (w : World) :
  snd (collected env up b w)
  = snd (dispatch env up (get (Some b) "prompt") (model_of b) w).
Proof.
  unfold collected. now destruct (dispatch env up _ _ w).
Qed.

(** The requests of one call, for a body that parses to [b]: Gemini's when
    the model is [both] or [gemini], OpenAI's when it is asked for and the
    key is set, the synthesizer's in fusion mode when the key is set, a
    text was collected and the meta-prompt can be built; in this order and
    nothing else. *)
Lemma POST_sent (env : Env) (up : Upstream) (body : jstr) (b : json) (w : World) :
  JSON_parse body = Some b -> b <> JNull ->
  let prompt := get (Some b) "prompt" in
  let sl := fst (collected env up b w) in
  sent (snd (POST env up body w))
  = sent w
    ++ (if is_str (model_of b) "both" || is_str (model_of b) "gemini"
        then [GeminiGenerate (GEMINI_API_KEY env) prompt] else [])
    ++ (if (is_str (model_of b) "openai"
            || is_str (model_of b) "both" && env_set (OPENAI_API_KEY env))
           && env_set (OPENAI_API_KEY env)
        then [OpenAIChat (OPENAI_API_KEY env) prompt] else [])
    ++ (if negb (is_str (mode_of b) "single")
           && (env_set (OPENAI_API_KEY env)
               && truthy (js_or (gemT sl) (openT sl)))
        then synth_requests env (gemT sl) (openT sl) prompt
        else []).
Proof.
  intros Hb Hnull prompt sl.
  rewrite POST_sent_throw, (POST_try_parsed env up body b w Hb Hnull).
  pose proof (collected_world env up b w) as Hw.
  pose proof (dispatch_sent env up prompt (model_of b) w) as Hd.
  fold prompt in Hw. rewrite <- Hw in Hd. subst sl.
  destruct (collected env up b w) as [sl w1]. simpl in Hd |- *.
  destruct (is_str (mode_of b) "single"); simpl negb; cbv iota.
  - simpl. rewrite Hd, app_nil_r. reflexivity.
  - rewrite fusion_sent, Hd, <- !app_assoc. reflexivity.
Qed.

(** X5: without [OPENAI_API_KEY] no request goes to OpenAI, whatever the
    body, the mode and the model: a call of the handler sends nothing, or
    Gemini's request alone. *)
Theorem no_OpenAI_request_without_key
    (env : Env) (up : Upstream) (body : jstr) (w : World) :
  env_set (OPENAI_API_KEY env) = false ->
  sent (snd (POST env up body w)) = sent w
  \/ exists prompt,
       sent (snd (POST env up body w))
       = sent w ++ [GeminiGenerate (GEMINI_API_KEY env) prompt].
Proof.
  intros Hk.
  destruct (JSON_parse body) as [b|] eqn:Hb;
    [|left; unfold POST, POST_try; now rewrite Hb].
  destruct (json_is_null b) eqn:Hn.
  - left. destruct b; try discriminate.
    unfold POST, POST_try. now rewrite Hb.
  - assert (Hnull : b <> JNull) by (intros ->; discriminate).
    rewrite (POST_sent env up body b w Hb Hnull). rewrite Hk.
    cbn [andb]. rewrite !andb_false_r. cbv iota.
    destruct (is_str (model_of b) "both" || is_str (model_of b) "gemini");
      [right; eexists; reflexivity|left; simpl; apply app_nil_r].
Qed.

(** X6: a call of the handler sends at most three requests, appended to
    those sent before: nothing is retried. *)
Theorem at_most_three_requests
    (env : Env) (up : Upstream) (body : jstr) (w : World) :
  exists l, sent (snd (POST env up body w)) = sent w ++ l
            /\ (List.length l <= 3)%nat.
Proof.
  assert (Hnone : sent (snd (POST env up body w)) = sent w ->
                  exists l, sent (snd (POST env up body w)) = sent w ++ l
                            /\ (List.length l <= 3)%nat).
  { intros H. exists []. rewrite app_nil_r. split; [exact H|simpl; lia]. }
  destruct (JSON_parse body) as [b|] eqn:Hb;
    [|apply Hnone; unfold POST, POST_try; now rewrite Hb].
  destruct (json_is_null b) eqn:Hn.
  - apply Hnone. destruct b; try discriminate.
    unfold POST, POST_try. now rewrite Hb.
  - assert (Hnull : b <> JNull) by (intros ->; discriminate).
    rewrite (POST_sent env up body b w Hb Hnull).
    eexists; split; [reflexivity|]. rewrite !length_app.
    unfold synth_requests.
    destruct (synthPrompt _ _ _);
      repeat match goal with
             | |- context [if ?c then _ else _] => destruct c
             end; simpl; lia.
Qed.

Lemma is_str_other (v : value) (s s' : string) :
  is_str v s = true -> jstr_eqb (lit s) (lit s') = false -> is_str v s' = false.
Proof.
  intros H Hne. apply is_str_true in H. subst v. exact Hne.
Qed.

(** X7: choosing Gemini alone keeps OpenAI out in single mode only.  In
    single mode the only request is Gemini's; in fusion mode, when
    [OPENAI_API_KEY] is set, Gemini's text was collected and the meta-prompt
    can be built from the prompt and the texts, the meta-prompt, which
    holds the prompt and that text, is then sent to OpenAI in the
    synthesizer's request. *)
Theorem gemini_only_requests
    (env : Env) (up : Upstream) (body : jstr) (b : json) (w : World) :
  JSON_parse body = Some b ->
  is_str (model_of b) "gemini" = true ->
  let prompt := get (Some b) "prompt" in
  let sl := fst (collected env up b w) in
  (is_str (mode_of b) "single" = true ->
   sent (snd (POST env up body w))
   = sent w ++ [GeminiGenerate (GEMINI_API_KEY env) prompt])
  /\ (is_str (mode_of b) "single" = false ->
      env_set (OPENAI_API_KEY env) = true ->
      truthy (js_or (gemT sl) (openT sl)) = true ->
      forall content,
        synthPrompt (gemT sl) (openT sl) prompt = Normal content ->
        sent (snd (POST env up body w))
        = sent w ++ [GeminiGenerate (GEMINI_API_KEY env) prompt;
                     OpenAIChat (OPENAI_API_KEY env) (Some (JStr content))]).
Proof.
  intros Hb Hm prompt sl.
  assert (Hnull : b <> JNull) by (intros ->; discriminate).
  pose proof (POST_sent env up body b w Hb Hnull) as HS. cbv zeta in HS.
  fold prompt in HS. fold sl in HS.
  rewrite Hm, (is_str_other _ _ "both" Hm eq_refl),
    (is_str_other _ _ "openai" Hm eq_refl) in HS.
  cbn [orb andb] in HS. cbv iota in HS.
  split.
  - intros Hs. rewrite Hs in HS. exact HS.
  - intros Hs Hk Ht content Hc. unfold synth_requests in HS.
    rewrite Hs, Hk, Ht, Hc in HS. exact HS.
Qed.

(** ** Requests for which no text is collected *)

Lemma assign_failure (sl : Slots) (d : value) : assign sl (failure d) = sl.
Proof. reflexivity. Qed.

Lemma callGemini_rejected (env : Env) (up : Upstream) (prompt : value)
    (w : World) :
  all_rejected up -> exists d, fst (callGemini env up prompt w) = failure d.
Proof.
  intros Hup. unfold callGemini, axios_post.
  destruct (Hup (sent w) (GeminiGenerate (GEMINI_API_KEY env) prompt))
    as (rd & msg & E).
  rewrite E. simpl. eauto.
Qed.

Lemma callOpenAI_rejected (env : Env) (up : Upstream) (prompt : value)
    (w : World) :
  all_rejected up -> exists d, fst (callOpenAI env up prompt w) = failure d.
Proof.
  intros Hup. unfold callOpenAI, axios_post.
  destruct (negb (env_set (OPENAI_API_KEY env))); [simpl; eauto|].
  destruct (Hup (sent w) (OpenAIChat (OPENAI_API_KEY env) prompt))
    as (rd & msg & E).
  rewrite E. simpl. eauto.
Qed.

Lemma collected_rejected (env : Env) (up : Upstream) (b : json) (w : World) :
  all_rejected up -> fst (collected env up b w) = no_slots.
Proof.
  intros Hup. unfold collected, dispatch.
  destruct (is_str (model_of b) "both" || is_str (model_of b) "gemini").
  - destruct (callGemini_rejected env up (get (Some b) "prompt") w Hup)
      as [dG EG].
    destruct (callGemini env up _ w) as [rG wG]. simpl in EG. subst rG.
    destruct (is_str (model_of b) "openai" || _).
    + destruct (callOpenAI_rejected env up (get (Some b) "prompt") wG Hup)
        as [dO EO].
      destruct (callOpenAI env up _ wG) as [rO wO]. simpl in EO. subst rO.
      reflexivity.
    + reflexivity.
  - destruct (is_str (model_of b) "openai" || _).
    + destruct (callOpenAI_rejected env up (get (Some b) "prompt") w Hup)
        as [dO EO].
      destruct (callOpenAI env up _ w) as [rO wO]. simpl in EO. subst rO.
      reflexivity.
    + reflexivity.
Qed.

Lemma single_no_slots (model : value) :
  single model no_slots = json_reply (Some (JStr (placeholder_for model))).
Proof.
  unfold single, placeholder_for.
  destruct (is_str model "gemini"); [reflexivity|].
  destruct (is_str model "openai"); reflexivity.
Qed.

Lemma no_marker_empty : no_marker [].
Proof.
  intros m Hm. rewrite (toUpperCase_ascii [] eq_refl). simpl in Hm.
  repeat (destruct Hm as [<-|Hm]; [reflexivity|]). contradiction.
Qed.

Lemma heuristicMerge_empty :
  heuristicMerge empty_string empty_string = Normal (annotated [] []).
Proof.
  apply annotated_when_no_marker; try apply no_marker_empty.
  left. reflexivity.
Qed.

Lemma fusion_no_slots (env : Env) (up : Upstream) (prompt : value) (w : World) :
  fusion env up prompt no_slots w
  = (Normal (json_reply (Some (JStr (annotated [] [])))), w).
Proof.
  unfold fusion.
  change (truthy (js_or (gemT no_slots) (openT no_slots))) with false.
  rewrite andb_false_r.
  change (heuristicMerge (gemT no_slots) (openT no_slots))
    with (heuristicMerge empty_string empty_string).
  now rewrite heuristicMerge_empty.
Qed.

Lemma POST_no_slots (env : Env) (up : Upstream) (body : jstr) (b : json)
    (w : World) :
  JSON_parse body = Some b -> b <> JNull ->
  fst (collected env up b w) = no_slots ->
  POST env up body w = (degraded b, snd (collected env up b w)).
Proof.
  intros Hb Hnull Hsl. unfold POST.
  rewrite (POST_try_parsed env up body b w Hb Hnull).
  destruct (collected env up b w) as [sl w1]. simpl in Hsl |- *. subst sl.
  unfold degraded. destruct (is_str (mode_of b) "single").
  - now rewrite single_no_slots.
  - now rewrite fusion_no_slots.
Qed.

(** X8: when every upstream call is rejected the request is still answered
    200: in single mode with the fixed text of the model asked for, in
    fusion mode with the annotated text in which both replies read
    [(no reply)]; the synthesizer is not called. *)
Theorem upstream_down_reply
    (env : Env) (up : Upstream) (body : jstr) (b : json) (w : World) :
  JSON_parse body = Some b -> b <> JNull -> all_rejected up ->
  fst (POST env up body w) = degraded b
  /\ status (degraded b) = 200%nat
  /\ sent (snd (POST env up body w))
     = sent (snd (dispatch env up (get (Some b) "prompt") (model_of b) w)).
Proof.
  intros Hb Hnull Hup.
  rewrite (POST_no_slots env up body b w Hb Hnull
             (collected_rejected env up b w Hup)).
  repeat split.
  - unfold degraded. now destruct (is_str (mode_of b) "single").
  - simpl. now rewrite collected_world.
Qed.

(** X9: a model other than [both], [gemini] and [openai] selects no
    provider: the handler sends nothing upstream and logs nothing, and
    still answers 200, with the fixed text in single mode and the annotated
    text of two missing replies in fusion mode. *)
Theorem unknown_model_sends_nothing
    (env : Env) (up : Upstream) (body : jstr) (b : json) (w : World) :
  JSON_parse body = Some b -> b <> JNull ->
  is_str (model_of b) "both" = false ->
  is_str (model_of b) "gemini" = false ->
  is_str (model_of b) "openai" = false ->
  POST env up body w = (degraded b, w).
Proof.
  intros Hb Hnull H1 H2 H3.
  assert (Hc : collected env up b w = (no_slots, w)).
  { unfold collected, dispatch. now rewrite H1, H2, H3. }
  rewrite (POST_no_slots env up body b w Hb Hnull); now rewrite Hc.
Qed.

(** X10: a body that parses to a number, a string, a boolean or an array is
    not refused: it is handled exactly as the empty object, that is in
    fusion mode, for both providers, with a prompt that is [undefined]. *)
Theorem fieldless_body_as_empty_object
    (env : Env) (up : Upstream) (body : jstr) (b : json) (w : World) :
  JSON_parse body = Some b -> no_fields b = true ->
  POST env up body w = POST env up (lit "{}") w
  /\ mode_of b = str "fusion" /\ model_of b = str "both"
  /\ get (Some b) "prompt" = undefined.
Proof.
  intros Hb Hf.
  assert (He : JSON_parse (lit "{}") = Some (JObj []))
    by (vm_compute; reflexivity).
  unfold POST, POST_try. rewrite Hb, He.
  destruct b; try discriminate Hf; repeat split; reflexivity.
Qed.

(** X11: a body that does not parse, or that parses to [null], is answered
    500 with the fixed text; nothing is sent upstream and one line is
    logged. *)
Theorem bad_body_response
    (env : Env) (up : Upstream) (body : jstr) (w : World) :
  JSON_parse body = None \/ JSON_parse body = Some JNull ->
  fst (POST env up body w) = mkResponse 500 (Some (JStr error_reply))
  /\ sent (snd (POST env up body w)) = sent w
  /\ exists detail,
       logged (snd (POST env up body w))
       = logged w ++ [(lit "API route error", detail)].
Proof.
  intros [H|H]; unfold POST, POST_try; rewrite H; simpl;
    repeat split; eexists; reflexivity.
Qed.

(** ** Replies that are empty or missing *)

Lemma marker_step_nonempty (g o : value) (m : jstr) :
  marker_step g o = Normal m -> is_empty m = false.
Proof.
  unfold marker_step.
  destruct (extractByMarker (js_or g empty_string) no_parts) as [p1|];
    simpl; [|discriminate].
  destruct (extractByMarker (js_or o empty_string) p1) as [p2|];
    simpl; [|discriminate].
  destruct (is_empty (script p2) && is_empty (video p2) && is_empty (general p2));
    [|intros H; injection H as <-; reflexivity].
  unfold longest_wins.
  destruct (ToString_value (js_or g no_reply)); [|discriminate].
  destruct (ToString_value (js_or o no_reply)); [|discriminate].
  destruct (ToString_value _); [|discriminate].
  intros H; injection H as <-; reflexivity.
Qed.

Lemma heuristicMerge_nonempty (g o : value) (m : jstr) :
  heuristicMerge g o = Normal m -> is_empty m = false.
Proof.
  unfold heuristicMerge.
  destruct (JSON_parse_value g) as [gj|]; [|apply marker_step_nonempty].
  destruct (JSON_parse_value o) as [oj|]; [|apply marker_step_nonempty].
  intros H. injection H as <-.
  unfold JSON_stringify2, merged_doc. now rewrite serialize_obj.
Qed.

Lemma truthy_js_or_r (x d : value) :
  truthy d = true -> truthy (js_or x d) = true.
Proof. intros H. unfold js_or. now destruct (truthy x) eqn:E. Qed.

Lemma single_truthy (model : value) (sl : Slots) :
  truthy (reply (single model sl)) = true.
Proof.
  unfold single.
  destruct (is_str model "gemini"); [now apply truthy_js_or_r|].
  destruct (is_str model "openai"); now apply truthy_js_or_r.
Qed.

(** X12: a response that is not the 500 has a reply that is truthy (in
    particular not [undefined] and not the empty string), unless the reply
    is the text of a synthesis that succeeded: in single mode, and whenever
    the merger produces the reply, the reply is never empty. *)
Theorem falsy_reply_only_from_synthesis
    (env : Env) (up : Upstream) (body : jstr) (b : json) (w w1 : World)
    (r : Response) :
  JSON_parse body = Some b ->
  POST_try env up body w = (Normal r, w1) ->
  truthy (reply r) = true
  \/ (is_str (mode_of b) "single" = false
      /\ env_set (OPENAI_API_KEY env) = true
      /\ let sl := fst (collected env up b w) in
         exists synth,
           fst (synthesizeWithOpenAI env up (gemT sl) (openT sl)
                  (get (Some b) "prompt") (snd (collected env up b w)))
           = Normal synth
           /\ ok synth = true /\ reply r = text synth).
Proof.
  intros Hb Htry.
  assert (Hnull : b <> JNull).
  { intros ->. unfold POST_try in Htry. rewrite Hb in Htry. discriminate. }
  rewrite (POST_try_parsed env up body b w Hb Hnull) in Htry.
  destruct (collected env up b w) as [sl w0]. cbn [fst snd].
  destruct (is_str (mode_of b) "single").
  - left. injection Htry as <- _. apply single_truthy.
  - unfold fusion in Htry.
    destruct (env_set (OPENAI_API_KEY env)) eqn:Hk; cbn [andb] in Htry.
    + destruct (truthy (js_or (gemT sl) (openT sl))).
      * destruct (synthesizeWithOpenAI env up _ _ _ w0) as [[synth|e] w2] eqn:Es;
          [|discriminate].
        cbn [fst]. destruct (ok synth) eqn:Hok.
        -- right. injection Htry as <- _. repeat split; try reflexivity.
           exists synth. auto.
        -- left. destruct (heuristicMerge _ _) as [m|] eqn:Em; [|discriminate].
           injection Htry as <- _. unfold json_reply. cbn [reply].
           rewrite truthy_string, (heuristicMerge_nonempty _ _ _ Em).
           reflexivity.
      * left. destruct (heuristicMerge _ _) as [m|] eqn:Em; [|discriminate].
        injection Htry as <- _. unfold json_reply. cbn [reply].
        rewrite truthy_string, (heuristicMerge_nonempty _ _ _ Em).
        reflexivity.
    + left. destruct (heuristicMerge _ _) as [m|] eqn:Em; [|discriminate].
      injection Htry as <- _. unfold json_reply. cbn [reply].
      rewrite truthy_string, (heuristicMerge_nonempty _ _ _ Em). reflexivity.
Qed.

(** ** What a fulfilled call to Gemini returns *)

Lemma serialize_nonempty (gap : bool) (d : nat) (v : json) :
  printable v = true -> is_empty (serialize gap d v) = false.
Proof.
  intros H. now destruct (serialize_start gap d v H) as (c & t & -> & _).
Qed.

(** X13: when Gemini's call is fulfilled with a payload [data], the adapter
    returns a success whose text is the first candidate's text when that is
    truthy, and otherwise the serialised payload.  The text is never empty,
    and [JSON.parse] reads the serialised payload back as [data] with its
    numbers as they were printed ([null] for a number that is not
    finite). *)
Theorem callGemini_fulfilled
    (env : Env) (up : Upstream) (prompt : value) (w : World) (data : json) :
  up (sent w) (GeminiGenerate (GEMINI_API_KEY env) prompt) = Fulfilled data ->
  wf data = true ->
  let r := fst (callGemini env up prompt w) in
  ok r = true /\ raw r = Some data /\ truthy (text r) = true
  /\ (truthy (gemini_candidate data) = true -> text r = gemini_candidate data)
  /\ (truthy (gemini_candidate data) = false ->
      text r = Some (JStr (JSON_stringify data))
      /\ JSON_parse_value (text r) = Some (reread data)).
Proof.
  intros Hup Hwf. pose proof (wf_printable data Hwf) as Hpr.
  unfold callGemini, axios_post. rewrite Hup.
  fold (gemini_candidate data).
  destruct (truthy (gemini_candidate data)) eqn:Hc; cbn [fst ok raw text].
  - repeat split; try assumption; try discriminate; reflexivity.
  - repeat split; try discriminate.
    + rewrite truthy_string. unfold JSON_stringify.
      now rewrite serialize_nonempty.
    + unfold JSON_parse_value, JSON_stringify. simpl ToString_value. cbv iota.
      now apply JSON_parse_serialize.
Qed.

(** ** Which slot a result goes to *)

Lemma callOpenAI_text_shape (env : Env) (up : Upstream) (prompt : value)
    (w : World) :
  text (fst (callOpenAI env up prompt w)) = None
  \/ has_choices (fst (callOpenAI env up prompt w)) = true.
Proof.
  unfold has_choices, callOpenAI, axios_post.
  destruct (negb (env_set (OPENAI_API_KEY env))); simpl; [auto|].
  destruct (up (sent w) _) as [data|rd msg]; simpl; [|auto].
  destruct (first_choice_content data) as [j|] eqn:E; [|auto].
  right. apply js_and_field. unfold first_choice_content in E.
  now apply first_item_truthy in E.
Qed.

Lemma assign_first_gemini (env : Env) (up : Upstream) (prompt : value)
    (w : World) :
  let rG := fst (callGemini env up prompt w) in
  has_choices rG = false ->
  gemT (assign no_slots rG) = js_or (text rG) empty_string
  /\ openT (assign no_slots rG) = empty_string.
Proof.
  intros rG Hch.
  destruct (adapter_text_shape env up prompt w rG (or_introl eq_refl))
    as [H|[H|[H|[s H]]]].
  - unfold assign. rewrite H. split; reflexivity.
  - unfold has_choices in Hch. congruence.
  - unfold assign. fold (has_choices rG). rewrite Hch, H.
    destruct (truthy (js_and (raw rG) (get (raw rG) "candidates")));
      split; reflexivity.
  - unfold assign. fold (has_choices rG). rewrite Hch, H.
    destruct (truthy (js_and (raw rG) (get (raw rG) "candidates")));
      [split; reflexivity|].
    destruct s; split; reflexivity.
Qed.

Lemma assign_then_openai (env : Env) (up : Upstream) (prompt : value)
    (w : World) (sl : Slots) :
  let rO := fst (callOpenAI env up prompt w) in
  has_candidates rO = false -> openT sl = empty_string ->
  gemT (assign sl rO) = gemT sl
  /\ openT (assign sl rO) = js_or (text rO) empty_string.
Proof.
  intros rO Hca Ho. unfold assign. fold (has_candidates rO). rewrite Hca.
  fold (has_choices rO).
  destruct (callOpenAI_text_shape env up prompt w) as [H|H]; fold rO in H.
  - rewrite H. destruct (has_choices rO); split; auto.
  - rewrite H. split; reflexivity.
Qed.

Lemma js_or_twice (t d : value) :
  truthy d = true -> js_or (js_or t empty_string) d = js_or t d.
Proof.
  intros Hd. unfold js_or. destruct (truthy t) eqn:Ht; [now rewrite Ht|].
  reflexivity.
Qed.

(** X14: in single mode for [gemini] the reply is the text of Gemini's
    result, whatever truthy value that is, and the fixed text of Gemini when
    the result has no text or an empty one; this holds as long as Gemini's
    payload has no truthy [choices] field. *)
Theorem single_gemini_reply
    (env : Env) (up : Upstream) (body : jstr) (b : json) (w : World) :
  JSON_parse body = Some b ->
  is_str (mode_of b) "single" = true ->
  is_str (model_of b) "gemini" = true ->
  let rG := fst (callGemini env up (get (Some b) "prompt") w) in
  has_choices rG = false ->
  fst (POST env up body w)
  = json_reply (js_or (text rG) (Some (JStr no_reply_gemini))).
Proof.
  intros Hb Hmode Hmodel rG Hch.
  assert (Hnull : b <> JNull) by (intros ->; discriminate).
  unfold POST. rewrite (POST_try_parsed env up body b w Hb Hnull).
  unfold collected, dispatch.
  rewrite Hmodel, (is_str_other _ _ "both" Hmodel eq_refl),
    (is_str_other _ _ "openai" Hmodel eq_refl).
  cbn [orb andb]. cbv iota.
  destruct (assign_first_gemini env up (get (Some b) "prompt") w Hch)
    as [Hg _].
  fold rG in Hg. subst rG.
  destruct (callGemini env up (get (Some b) "prompt") w) as [rG wG].
  cbn [fst] in *. rewrite Hmode. cbn [fold_left app fst].
  unfold single. rewrite Hmodel, Hg. now rewrite js_or_twice.
Qed.

(** X15: when both providers are called, each text lands in its own slot as
    long as neither payload carries the other provider's field: if Gemini's
    payload has no truthy [choices] and OpenAI's has no truthy
    [candidates], the Gemini slot holds Gemini's text and the OpenAI slot
    OpenAI's (the empty string for a text that is missing or empty).  The
    positional guess of the loop never swaps them. *)
Theorem both_attribution
    (env : Env) (up : Upstream) (b : json) (w : World) :
  is_str (model_of b) "both" = true ->
  env_set (OPENAI_API_KEY env) = true ->
  let prompt := get (Some b) "prompt" in
  let rG := fst (callGemini env up prompt w) in
  let rO := fst (callOpenAI env up prompt (snd (callGemini env up prompt w))) in
  has_choices rG = false -> has_candidates rO = false ->
  gemT (fst (collected env up b w)) = js_or (text rG) empty_string
  /\ openT (fst (collected env up b w)) = js_or (text rO) empty_string.
Proof.
  intros Hmodel Hk prompt rG rO HG HO.
  unfold collected, dispatch. fold prompt. rewrite Hmodel, Hk.
  cbn [orb andb]. rewrite orb_true_r. cbv iota.
  destruct (assign_first_gemini env up prompt w HG) as [Hg Ho].
  fold rG in Hg, Ho.
  pose proof (assign_then_openai env up prompt
                (snd (callGemini env up prompt w)) (assign no_slots rG)) as HA.
  cbv zeta in HA. fold rO in HA. destruct (HA HO Ho) as [Hg' Ho'].
  subst rG rO.
  destruct (callGemini env up prompt w) as [rG wG]. cbn [fst snd] in *.
  destruct (callOpenAI env up prompt wG) as [rO wO]. cbn [fst snd] in *.
  cbn [app fold_left]. rewrite Hg', Ho', Hg. split; reflexivity.
Qed.

(** * The chat component *)

(** ** One call of [send] *)

Lemma reply_text_truthy (data : json) : json_truthy (Chat.reply_text data) = true.
Proof.
  unfold Chat.reply_text. destruct (get (Some data) "reply") as [t|];
    [|reflexivity].
  destruct (json_truthy t) eqn:E; [exact E|reflexivity].
Qed.

(** X17: [send] does nothing when the input is blank (empty once trimmed):
    the state is unchanged and nothing is posted.  Otherwise it posts the
    input untrimmed with the mode and model selected, and leaves the
    transcript longer by exactly two messages, the user's with the input as
    typed and then the assistant's, whose text is never empty; the input is
    cleared, [loading] is off again, and the selection is kept. *)
Theorem send_effect
    (now0 now1 : N) (post : json -> Chat.PostOutcome) (st : Chat.State) :
  let st' := fst (Chat.send now0 now1 post st) in
  let posted := snd (Chat.send now0 now1 post st) in
  if is_empty (trim (Chat.input st))
  then st' = st /\ posted = None
  else
    posted = Some (JObj [(lit "prompt", JStr (Chat.input st));
                         (lit "mode", JStr (Chat.mode st));
                         (lit "model", JStr (Chat.model st))])
    /\ (exists id text,
          json_truthy text = true
          /\ Chat.messages st'
             = Chat.messages st
               ++ [Chat.message now0 "user" (JStr (Chat.input st));
                   Chat.message id "assistant" text])
    /\ Chat.input st' = [] /\ Chat.loading st' = false
    /\ Chat.mode st' = Chat.mode st /\ Chat.model st' = Chat.model st.
Proof.
  unfold Chat.send, Chat.send_start.
  destruct (is_empty (trim (Chat.input st))); cbn [fst snd]; [auto|].
  repeat split.
  unfold Chat.send_finish. cbn [Chat.messages].
  destruct (post (Chat.payload st)) as [data|].
  - exists (now1 + 1), (Chat.reply_text data).
    split; [apply reply_text_truthy|]. now rewrite <- app_assoc.
  - exists (now1 + 2), (JStr Chat.request_failed).
    split; [reflexivity|]. now rewrite <- app_assoc.
Qed.

(** ** The stored transcript *)

Lemma nzhead_head (u : Decimal.uint) :
  match Decimal.nzhead u with Decimal.D0 _ => False | _ => True end.
Proof. induction u; simpl; auto. Qed.

Lemma to_uint_canonical (n : N) :
  N.to_uint n = Decimal.D0 Decimal.Nil
  \/ match N.to_uint n with
     | Decimal.D0 _ | Decimal.Nil => False
     | _ => True
     end.
Proof.
  pose proof (DecimalN.Unsigned.to_of (N.to_uint n)) as H.
  rewrite DecimalN.Unsigned.of_to in H. rewrite H. unfold Decimal.unorm.
  pose proof (nzhead_head (N.to_uint n)) as Hh.
  destruct (Decimal.nzhead (N.to_uint n)); auto.
Qed.

Lemma span_uint_units (u : Decimal.uint) :
  span_digits (Chat.uint_units u) = (Chat.uint_units u, []).
Proof. induction u; simpl; try reflexivity; now rewrite IHu. Qed.

Lemma Number_toString_valid (n : N) :
  valid_number (Chat.Number_toString n) = true.
Proof.
  unfold Chat.Number_toString.
  destruct (to_uint_canonical n) as [E|H]; [now rewrite E|].
  assert (G : forall c u, is_digit c = true -> (c =? 48) = false ->
              valid_number (c :: Chat.uint_units u) = true).
  { intros c u Hd H0. unfold valid_number, scan_number.
    assert (Hm : scan_minus (c :: Chat.uint_units u)
                 = ([], c :: Chat.uint_units u)).
    { simpl. apply digit_range in Hd.
      destruct (N.eqb_spec c 45); [lia|reflexivity]. }
    rewrite Hm. unfold scan_int. rewrite H0, Hd, span_uint_units.
    cbn [scan_frac scan_exp app]. rewrite app_nil_r. apply jstr_eqb_refl. }
  destruct (N.to_uint n); try contradiction; cbn [Chat.uint_units];
    apply G; reflexivity.
Qed.

Lemma span_digits_all (d : jstr) :
  forallb is_digit d = true -> span_digits d = (d, []).
Proof.
  induction d as [|c d IH]; [reflexivity|]. simpl.
  intros H. apply andb_prop in H as [Hc Hd]. now rewrite Hc, (IH Hd).
Qed.

(** An integer below [10^15] is a number of the JSON grammar. *)
Lemma safe_integer_valid (l : jstr) :
  safe_integer l = true -> valid_number l = true.
Proof.
  unfold safe_integer. intros H. apply andb_prop in H as [H Hc].
  apply andb_prop in H as [Hd _].
  destruct l as [|c l]; [discriminate|].
  simpl in Hd. apply andb_prop in Hd as [Hc1 Hl].
  assert (Hm : scan_minus (c :: l) = ([], c :: l)).
  { simpl. apply digit_range in Hc1.
    destruct (N.eqb_spec c 45); [lia|reflexivity]. }
  unfold valid_number, scan_number. rewrite Hm. unfold scan_int.
  destruct (c =? 48) eqn:E0.
  - destruct l; [|discriminate Hc].
    apply N.eqb_eq in E0. subst c. reflexivity.
  - rewrite Hc1, (span_digits_all l Hl). cbn [scan_frac scan_exp app].
    rewrite app_nil_r. apply jstr_eqb_refl.
Qed.

Lemma is_message_wf (m : json) :
  Chat.is_message m = true -> wf m = true /\ prints_itself m = true.
Proof.
  unfold Chat.is_message.
  destruct m as [| | | | |[|[k1 [| |l| | |]] [|[k2 [| | |r| |]]
                              [|[k3 [| | |t| |]] [|]]]]]; try discriminate.
  intros H.
  apply andb_prop in H as [H Hs].
  apply andb_prop in H as [H H3]. apply andb_prop in H as [H1 H2].
  apply jstr_eqb_eq in H1, H2, H3. subst k1 k2 k3.
  cbn [wf prints_itself forallb snd].
  rewrite (safe_integer_valid l Hs), (proj1 (safe_integer_exact l Hs)),
    jstr_eqb_refl.
  split; reflexivity.
Qed.

Lemma messages_wf (ms : list json) :
  forallb Chat.is_message ms = true ->
  forallb wf ms = true /\ forallb prints_itself ms = true.
Proof.
  induction ms as [|m ms IH]; [split; reflexivity|]. simpl.
  intros H. apply andb_prop in H as [Hm Hms].
  destruct (is_message_wf m Hm) as [-> ->]. destruct (IH Hms) as [-> ->].
  split; reflexivity.
Qed.

Lemma message_is_message (id : N) (role : string) (text : jstr) :
  safe_integer (Chat.Number_toString id) = true ->
  Chat.is_message (Chat.message id role (JStr text)) = true.
Proof.
  intros H. unfold Chat.message, Chat.is_message.
  rewrite H, !jstr_eqb_refl. reflexivity.
Qed.

Lemma reload_persisted (st : Chat.State) :
  forallb Chat.is_message (Chat.messages st) = true ->
  Chat.initial_messages (Some (Chat.persist st)) = JArr (Chat.messages st).
Proof.
  intros H. apply messages_wf in H as [Hw Hp]. unfold Chat.initial_messages.
  assert (Hwf : wf (JArr (Chat.messages st)) = true) by exact Hw.
  assert (Hpi : prints_itself (JArr (Chat.messages st)) = true) by exact Hp.
  destruct (prints_itself_reread _ Hwf Hpi) as [Hpr _].
  pose proof (serialize_nonempty false 0 _ Hpr) as Hne.
  pose proof (JSON_parse_serialize_exact false _ Hwf Hpi) as Hparse.
  unfold Chat.persist, JSON_stringify.
  destruct (serialize false 0 (JArr (Chat.messages st))); [discriminate|].
  now rewrite Hparse.
Qed.

(** X18: the stored transcript reads back as it was written, and [send]
    keeps it so.  When every message of the transcript is of the shape
    [send] gives it, with a text that is a string and an [id] below
    [10^15], as the time stamps are, and when the reply a post resolves
    with is a string or is falsy, the messages after a call of [send] are
    of that shape again, and what the effect stores of them parses back to
    exactly these messages. *)
Theorem send_keeps_reloadable
    (now0 now1 : N) (post : json -> Chat.PostOutcome) (st : Chat.State) :
  forallb Chat.is_message (Chat.messages st) = true ->
  safe_integer (Chat.Number_toString now0) = true ->
  safe_integer (Chat.Number_toString (now1 + 1)) = true ->
  safe_integer (Chat.Number_toString (now1 + 2)) = true ->
  (forall p data, post p = Chat.Resolved data ->
                  is_string (Some (Chat.reply_text data)) = true) ->
  let st' := fst (Chat.send now0 now1 post st) in
  forallb Chat.is_message (Chat.messages st') = true
  /\ Chat.initial_messages (Some (Chat.persist st'))
     = JArr (Chat.messages st').
Proof.
  intros Hms H0 H1 H2 Hpost st'.
  assert (Hwf : forallb Chat.is_message (Chat.messages st') = true).
  { subst st'. unfold Chat.send, Chat.send_start.
    destruct (is_empty (trim (Chat.input st))); cbn [fst]; [exact Hms|].
    unfold Chat.send_finish. cbn [Chat.messages].
    rewrite !forallb_app, Hms. cbn [forallb].
    rewrite (message_is_message now0 "user" _ H0). cbn [andb].
    destruct (post (Chat.payload st)) as [data|] eqn:E.
    - specialize (Hpost _ _ E).
      destruct (Chat.reply_text data) as [| | |s| |]; try discriminate Hpost.
      now rewrite (message_is_message (now1 + 1) "assistant" s H1).
    - now rewrite (message_is_message (now1 + 2) "assistant" _ H2). }
  split; [exact Hwf|now apply reload_persisted].
Qed.

(** ** The component and the handler together *)

Lemma ToString_throw_kind (j : json) (e : exn) :
  ToString j = Throw e -> exists v, e = TypeError Conversion v.
Proof.
  revert e.
  induction j as [|b|l|s|l IH|ps IH] using json_nested_ind; intros e;
    cbn [ToString]; try discriminate.
  - destruct b; discriminate.
  - match goal with
    | |- bind (?F l) _ = _ -> _ =>
      assert (G : forall e', F l = Throw e' -> exists v, e' = TypeError Conversion v)
    end.
    { induction IH as [|x l Hx _ IHl]; intros e'; [discriminate|].
      match goal with
      | |- bind ?c _ = _ -> _ => destruct c as [sx|ex] eqn:Ex
      end; cbn [bind].
      - match goal with
        | |- bind ?c _ = _ -> _ => destruct c as [ss|es] eqn:El
        end; cbn [bind]; [discriminate|].
        intros H. injection H as <-. now apply IHl.
      - intros H. injection H as <-.
        destruct x; try discriminate Ex; now apply Hx. }
    match goal with
    | |- bind (?F l) _ = _ -> _ => destruct (F l) as [ss|es]
    end; cbn [bind]; [discriminate|].
    intros H. injection H as <-. now apply G.
  - destruct (obj_has (lit "toString") ps); [|discriminate].
    intros H. injection H as <-. eauto.
Qed.

Lemma ToString_value_throw_kind (v : value) (e : exn) :
  ToString_value v = Throw e -> exists c, e = TypeError Conversion c.
Proof. destruct v; [apply ToString_throw_kind|discriminate]. Qed.

(** What the synthesizer throws is the TypeError of a conversion. *)
Lemma synthesize_throw_kind (env : Env) (up : Upstream) (g o prompt : value)
    (w : World) (e : exn) :
  fst (synthesizeWithOpenAI env up g o prompt w) = Throw e ->
  exists v, e = TypeError Conversion v.
Proof.
  unfold synthesizeWithOpenAI, synthPrompt, axios_post.
  destruct (negb (env_set (OPENAI_API_KEY env))); [discriminate|].
  destruct (ToString_value prompt) as [sp|e1] eqn:E1; cbn [bind].
  - destruct (ToString_value g) as [sg|e2] eqn:E2; cbn [bind].
    + destruct (ToString_value o) as [so|e3] eqn:E3; cbn [bind].
      * destruct (up _ _); discriminate.
      * intros H. injection H as <-. now apply ToString_value_throw_kind in E3.
    + intros H. injection H as <-. now apply ToString_value_throw_kind in E2.
  - intros H. injection H as <-. now apply ToString_value_throw_kind in E1.
Qed.

(** X19: what [send] posts always reaches the handler intact: the body
    parses, to an object whose prompt, mode and model are the input and the
    selection as they were; so the handler never refuses a request of the
    component for its body. *)
Theorem payload_reaches_handler
    (env : Env) (up : Upstream) (w : World) (st : Chat.State) :
  let body := JSON_stringify (Chat.payload st) in
  JSON_parse body = Some (Chat.payload st)
  /\ get (Some (Chat.payload st)) "prompt" = Some (JStr (Chat.input st))
  /\ mode_of (Chat.payload st) = Some (JStr (Chat.mode st))
  /\ model_of (Chat.payload st) = Some (JStr (Chat.model st))
  /\ forall text, fst (POST_try env up body w) <> Throw (SyntaxError text).
Proof.
  intros body.
  assert (Hp : JSON_parse body = Some (Chat.payload st))
    by (apply JSON_parse_serialize_exact; reflexivity).
  repeat split; try exact Hp. intros text.
  rewrite (POST_try_parsed env up body _ w Hp) by discriminate.
  destruct (collected env up (Chat.payload st) w) as [sl w1].
  destruct (is_str (mode_of (Chat.payload st)) "single"); [discriminate|].
  unfold fusion.
  destruct (env_set (OPENAI_API_KEY env) && _).
  - destruct (synthesizeWithOpenAI env up _ _ _ w1) as [[synth|e] w2] eqn:Es.
    + destruct (ok synth); [discriminate|].
      destruct (heuristicMerge (gemT sl) (openT sl)) as [m|e] eqn:E;
        [discriminate|].
      apply heuristicMerge_throw_kind in E as [v ->]. discriminate.
    + apply (f_equal fst) in Es. cbn [fst] in Es.
      apply synthesize_throw_kind in Es as [v ->]. discriminate.
  - destruct (heuristicMerge (gemT sl) (openT sl)) as [m|e] eqn:E;
      [discriminate|].
    apply heuristicMerge_throw_kind in E as [v ->]. discriminate.
Qed.

Lemma axios_outcome_500 (r : Response) :
  status r = 500%nat -> Chat.axios_outcome r = Chat.Failed.
Proof. intros H. unfold Chat.axios_outcome. now rewrite H. Qed.

Lemma axios_outcome_reply (r : Response) (s : jstr) :
  status r = 200%nat -> reply r = Some (JStr s) ->
  Chat.axios_outcome r = Chat.Resolved (JObj [(lit "reply", JStr s)]).
Proof.
  intros Hs Hr. unfold Chat.axios_outcome, Chat.wire. rewrite Hs, Hr.
  cbn [Nat.leb Nat.ltb andb]. unfold JSON_stringify.
  rewrite JSON_parse_serialize_exact; reflexivity.
Qed.

Lemma axios_outcome_no_reply (r : Response) :
  status r = 200%nat -> reply r = None ->
  Chat.axios_outcome r = Chat.Resolved (JObj []).
Proof.
  intros Hs Hr. unfold Chat.axios_outcome, Chat.wire. rewrite Hs, Hr.
  reflexivity.
Qed.

(** X20: the message [send] appends to the transcript for a request, when
    the route of [POST] answers its post.  On a 500 its text is the
    component's own error text, never the fixed text the handler sends with
    the 500.  On a 200 with a reply that is a string, its text is that
    string, and the component's 'no reply arrived' text when the string is
    empty or the reply is missing. *)
Theorem what_the_user_sees
    (env : Env) (up : Upstream) (w : World) (now0 now1 : N) (st : Chat.State) :
  is_empty (trim (Chat.input st)) = false ->
  let r := fst (POST env up (JSON_stringify (Chat.payload st)) w) in
  let st' := fst (Chat.send now0 now1 (Chat.api_chat env up w) st) in
  let appended id text :=
    Chat.messages st'
    = Chat.messages st ++ [Chat.message now0 "user" (JStr (Chat.input st));
                           Chat.message id "assistant" (JStr text)] in
  (status r = 500%nat -> appended (now1 + 2) Chat.request_failed)
  /\ (status r = 200%nat -> forall s, reply r = Some (JStr s) ->
      appended (now1 + 1) (if is_empty s then Chat.no_reply_arrived else s))
  /\ (status r = 200%nat -> reply r = None ->
      appended (now1 + 1) Chat.no_reply_arrived).
Proof.
  intros Hin r st' appended. subst appended st'.
  unfold Chat.send, Chat.send_start. rewrite Hin. cbn [fst].
  unfold Chat.send_finish, Chat.api_chat. cbn [Chat.messages]. fold r.
  rewrite <- !app_assoc. cbn [app].
  repeat split.
  - intros Hs. now rewrite (axios_outcome_500 r Hs).
  - intros Hs s Hr. rewrite (axios_outcome_reply r s Hs Hr).
    unfold Chat.reply_text.
    change (get (Some (JObj [(lit "reply", JStr s)])) "reply")
      with (Some (JStr s)).
    destruct s; reflexivity.
  - intros Hs Hr. now rewrite (axios_outcome_no_reply r Hs Hr).
Qed.

End Properties.

(** * The examples

    The statements below are about the runtime [js]: each applies a theorem
    to a request, a reply or a transcript written out, or evaluates the
    code on one. *)

#[local] Existing Instance js.

Ltac no_marker_here :=
  let m := fresh "m" in
  let Hm := fresh "Hm" in
  intros m Hm; simpl in Hm;
  repeat (destruct Hm as [<-|Hm]; [vm_compute; reflexivity|]);
  contradiction.

(** ** The merger *)

Lemma longest_wins_fallback_witness :
  heuristicMerge (str "hello") (Some (JStr fifty))
  = Normal (annotated (lit "hello") fifty).
Proof.
  apply (longest_wins_fallback (lit "hello") fifty).
  - no_marker_here.
  - no_marker_here.
  - left. vm_compute. reflexivity.
Defined.

Lemma scalars_take_structured_step_witness :
  heuristicMerge (str "1") (str "2") = Normal doc_1_2.
Proof.
  exact (proj2 (proj2 (proj2 (proj2 (proj2 (proj2
           scalars_take_structured_step)))))).
Defined.


Lemma marker_sections_witness :
  heuristicMerge (str "SCRIPT: Hello") (str "VIDEO: World")
  = Normal (sections (buckets (lit "SCRIPT: Hello") (lit "VIDEO: World")))
  /\ sections (buckets (lit "SCRIPT: Hello") (lit "VIDEO: World"))
     = lit "--Merged Result (heuristic)--" ++ nl ++ nl ++ lit "== Script =="
       ++ nl ++ nl ++ lit "Hello" ++ nl ++ nl
       ++ lit "== Video Instructions / Assets ==" ++ nl ++ nl ++ lit "World"
       ++ nl.
Proof.
  split; [|vm_compute; reflexivity].
  apply (marker_sections (lit "SCRIPT: Hello") (lit "VIDEO: World")).
  - left. vm_compute. reflexivity.
  - vm_compute. reflexivity.
Defined.

Lemma longest_wins_keeps_replies_witness :
  exists out,
    heuristicMerge (str "hello") (Some (JStr fifty)) = Normal out
    /\ includes out (lit "hello") = true /\ includes out fifty = true.
Proof.
  apply (longest_wins_keeps_replies (lit "hello") fifty).
  - no_marker_here.
  - no_marker_here.
  - left. vm_compute. reflexivity.
Defined.

(** ** The handler *)

Lemma single_openai_without_key_witness :
  POST_try env_none up_down body_single_openai new_world
  = (Normal (mkResponse 200 (Some (JStr no_reply_openai))), new_world)
  /\ POST env_none up_down body_single_openai new_world
     = (mkResponse 200 (Some (JStr no_reply_openai)), new_world).
Proof.
  apply (single_openai_without_key env_none up_down body_single_openai
           (JObj [(lit "prompt", JStr (lit "hi"));
                  (lit "mode", JStr (lit "single"));
                  (lit "model", JStr (lit "openai"))]) new_world);
    vm_compute; reflexivity.
Defined.

Lemma fusion_reply_witness :
  exists m,
    heuristicMerge (str "A") empty_string = Normal m
    /\ POST env_keys up_openai_down body_hi new_world
       = (mkResponse 200 (Some (JStr m)),
          snd (POST env_keys up_openai_down body_hi new_world)).
Proof.
  pose (b := JObj [(lit "prompt", JStr (lit "hi"))]).
  pose (c := collected env_keys up_openai_down b new_world).
  assert (Hb : JSON_parse body_hi = Some b) by (vm_compute; reflexivity).
  assert (Hnull : b <> JNull) by discriminate.
  assert (Hmode : is_str (mode_of b) "single" = false) by reflexivity.
  assert (Hcol : collected env_keys up_openai_down b new_world = (fst c, snd c))
    by (vm_compute; reflexivity).
  destruct (fusion_reply env_keys up_openai_down body_hi b new_world (snd c)
              (fst c) Hb Hnull Hmode Hcol) as (Hsyn & _ & Hstr).
  assert (Hk : env_set (OPENAI_API_KEY env_keys) = true) by reflexivity.
  assert (Ht : truthy (js_or (gemT (fst c)) (openT (fst c))) = true)
    by (vm_compute; reflexivity).
  assert (Hc : synthPrompt (gemT (fst c)) (openT (fst c)) (get (Some b) "prompt")
               = Normal (synth_text (lit "hi") (lit "A") []))
    by (vm_compute; reflexivity).
  destruct (Hsyn Hk Ht _ Hc) as (r & Hr & _ & _ & Hfail).
  assert (Hok : ok r = false).
  { vm_compute in Hr. injection Hr as <-. reflexivity. }
  destruct Hstr as [m Hm]; [reflexivity|reflexivity|].
  exists m. split; [exact Hm|].
  rewrite (Hfail Hok m Hm). reflexivity.
Defined.

(** The claim C1 as stated fails in two ways.  Without [OPENAI_API_KEY],
    and with a Gemini candidate whose text is an object, the merger throws
    and the request is answered 500.  With the key and two replies that are
    strings, a prompt that is an object with a property [toString] makes the
    meta-prompt throw: the synthesizer sends nothing, the merger is not
    called, and the request is answered 500. *)
Lemma fusion_error_response :
  (JSON_parse body_hi = Some (JObj [(lit "prompt", JStr (lit "hi"))])
   /\ env_set (OPENAI_API_KEY env_none) = false
   /\ gemT (fst (collected env_none up_object_text
                   (JObj [(lit "prompt", JStr (lit "hi"))]) new_world))
      = Some (JObj [(lit "x", JNull)])
   /\ heuristicMerge (Some (JObj [(lit "x", JNull)])) empty_string
      = Throw (TypeError MethodCall (Some (JObj [(lit "x", JNull)])))
   /\ fst (POST env_none up_object_text body_hi new_world)
      = mkResponse 500 (Some (JStr error_reply)))
  /\ (JSON_parse body_toString
      = Some (JObj [(lit "prompt", JObj [(lit "toString", JNum (lit "1"))])])
      /\ env_set (OPENAI_API_KEY env_keys) = true
      /\ fst (collected env_keys up_answers
                (JObj [(lit "prompt", JObj [(lit "toString", JNum (lit "1"))])])
                new_world)
         = mkSlots (str "A") (str "B") true true
      /\ synthPrompt (str "A") (str "B")
           (Some (JObj [(lit "toString", JNum (lit "1"))]))
         = Throw (TypeError Conversion
                    (Some (JObj [(lit "toString", JNum (lit "1"))])))
      /\ fst (POST env_keys up_answers body_toString new_world)
         = mkResponse 500 (Some (JStr error_reply))
      /\ sent (snd (POST env_keys up_answers body_toString new_world))
         = [GeminiGenerate (Some (lit "g-key"))
              (Some (JObj [(lit "toString", JNum (lit "1"))]));
            OpenAIChat (Some (lit "o-key"))
              (Some (JObj [(lit "toString", JNum (lit "1"))]))]).
Proof. repeat split; vm_compute; reflexivity. Qed.

Lemma no_OpenAI_request_without_key_witness :
  sent (snd (POST env_none up_down body_hi new_world)) = sent new_world
  \/ exists prompt,
       sent (snd (POST env_none up_down body_hi new_world))
       = sent new_world ++ [GeminiGenerate (GEMINI_API_KEY env_none) prompt].
Proof.
  apply (no_OpenAI_request_without_key env_none up_down body_hi new_world).
  reflexivity.
Defined.

Lemma gemini_only_requests_witness :
  sent (snd (POST env_keys up_openai_down body_gemini new_world))
  = [GeminiGenerate (Some (lit "g-key")) (str "hi");
     OpenAIChat (Some (lit "o-key"))
       (Some (JStr (synth_text (lit "hi") (lit "A") [])))].
Proof.
  pose (b := JObj [(lit "prompt", JStr (lit "hi"));
                   (lit "model", JStr (lit "gemini"))]).
  assert (Hb : JSON_parse body_gemini = Some b) by (vm_compute; reflexivity).
  assert (Hm : is_str (model_of b) "gemini" = true) by reflexivity.
  destruct (gemini_only_requests env_keys up_openai_down body_gemini b
              new_world Hb Hm) as [_ H].
  rewrite (H eq_refl eq_refl) with (content := synth_text (lit "hi") (lit "A") []);
    vm_compute; reflexivity.
Defined.

Lemma upstream_down_reply_witness :
  fst (POST env_keys up_down body_hi new_world)
  = json_reply (Some (JStr (annotated [] []))).
Proof.
  refine (proj1 (upstream_down_reply env_keys up_down body_hi
                   (JObj [(lit "prompt", JStr (lit "hi"))]) new_world _ _ _)).
  - vm_compute. reflexivity.
  - discriminate.
  - intros h r. exists None, (lit "Network Error"). reflexivity.
Defined.

Lemma unknown_model_sends_nothing_witness :
  POST env_keys up_no_choices body_unknown_model new_world
  = (json_reply (Some (JStr (annotated [] []))), new_world).
Proof.
  apply (unknown_model_sends_nothing env_keys up_no_choices body_unknown_model
           (JObj [(lit "prompt", JStr (lit "hi"));
                  (lit "model", JStr (lit "claude"))]) new_world);
    try discriminate; vm_compute; reflexivity.
Defined.

Lemma fieldless_body_as_empty_object_witness :
  POST env_keys up_openai_down (lit "5") new_world
  = POST env_keys up_openai_down (lit "{}") new_world.
Proof.
  refine (proj1 (fieldless_body_as_empty_object env_keys up_openai_down
                   (lit "5") (JNum (lit "5")) new_world _ _)).
  - vm_compute. reflexivity.
  - reflexivity.
Defined.

Lemma bad_body_response_witness :
  fst (POST env_keys up_openai_down (lit "null") new_world)
  = mkResponse 500 (Some (JStr error_reply)).
Proof.
  refine (proj1 (bad_body_response env_keys up_openai_down (lit "null")
                   new_world _)).
  right. vm_compute. reflexivity.
Defined.

Lemma falsy_reply_only_from_synthesis_witness :
  truthy (reply (json_reply (Some (JStr (annotated (lit "A") []))))) = true.
Proof.
  pose (b := JObj [(lit "prompt", JStr (lit "hi"))]).
  pose (r := json_reply (Some (JStr (annotated (lit "A") [])))).
  assert (Hb : JSON_parse body_hi = Some b) by (vm_compute; reflexivity).
  assert (Htry : POST_try env_keys up_openai_down body_hi new_world
                 = (Normal r, snd (POST_try env_keys up_openai_down body_hi
                                     new_world)))
    by (vm_compute; reflexivity).
  destruct (falsy_reply_only_from_synthesis env_keys up_openai_down body_hi b
              new_world _ r Hb Htry) as [H|(_ & _ & H)].
  - exact H.
  - cbv zeta in H. destruct H as (synth & Hs & Hok & _).
    vm_compute in Hs. injection Hs as <-. discriminate Hok.
Defined.

(** ** The adapters *)

Lemma callGemini_fulfilled_witness :
  text (fst (callGemini env_keys up_blocked (str "hi") new_world))
  = Some (JStr (JSON_stringify blocked_payload))
  /\ JSON_parse_value
       (text (fst (callGemini env_keys up_blocked (str "hi") new_world)))
     = Some blocked_payload.
Proof.
  refine (proj2 (proj2 (proj2 (proj2
            (callGemini_fulfilled env_keys up_blocked (str "hi") new_world
               blocked_payload _ _)))) _); reflexivity.
Defined.

Lemma single_gemini_reply_witness :
  fst (POST env_keys up_blocked body_single_gemini new_world)
  = json_reply (Some (JStr (JSON_stringify blocked_payload))).
Proof.
  pose (b := JObj [(lit "prompt", JStr (lit "hi"));
                   (lit "mode", JStr (lit "single"));
                   (lit "model", JStr (lit "gemini"))]).
  assert (Hb : JSON_parse body_single_gemini = Some b)
    by (vm_compute; reflexivity).
  rewrite (single_gemini_reply env_keys up_blocked body_single_gemini b
             new_world Hb eq_refl eq_refl); [|vm_compute; reflexivity].
  vm_compute. reflexivity.
Defined.

Lemma both_attribution_witness :
  gemT (fst (collected env_keys up_openai_down
               (JObj [(lit "prompt", JStr (lit "hi"))]) new_world))
  = str "A"
  /\ openT (fst (collected env_keys up_openai_down
                   (JObj [(lit "prompt", JStr (lit "hi"))]) new_world))
     = empty_string.
Proof.
  apply (both_attribution env_keys up_openai_down
           (JObj [(lit "prompt", JStr (lit "hi"))]) new_world);
    vm_compute; reflexivity.
Defined.

(** ** The chat component *)

Lemma send_keeps_reloadable_witness :
  Chat.initial_messages
    (Some (Chat.persist
             (fst (Chat.send 1730505600000 1730505600750
                     (fun _ => Chat.Failed)
                     (Chat.mkState [] (lit "hi") false (lit "fusion")
                        (lit "both"))))))
  = JArr [Chat.message 1730505600000 "user" (JStr (lit "hi"));
          Chat.message 1730505600752 "assistant" (JStr Chat.request_failed)].
Proof.
  refine (proj2 (send_keeps_reloadable 1730505600000 1730505600750
                   (fun _ => Chat.Failed)
                   (Chat.mkState [] (lit "hi") false (lit "fusion") (lit "both"))
                   _ _ _ _ _)).
  - reflexivity.
  - reflexivity.
  - reflexivity.
  - reflexivity.
  - discriminate.
Defined.

Lemma what_the_user_sees_witness :
  Chat.messages
    (fst (Chat.send 1730505600000 1730505600750
            (Chat.api_chat env_keys up_no_choices new_world)
            (Chat.mkState [] (lit "hi") false (lit "fusion") (lit "both"))))
  = [Chat.message 1730505600000 "user" (JStr (lit "hi"));
     Chat.message 1730505600751 "assistant" (JStr Chat.no_reply_arrived)].
Proof.
  refine (proj2 (proj2 (what_the_user_sees env_keys up_no_choices new_world
                          1730505600000 1730505600750
                          (Chat.mkState [] (lit "hi") false (lit "fusion")
                             (lit "both")) _)) _ _);
    vm_compute; reflexivity.
Defined.
